(** * Dining-hall meal plan generator: a shallow embedding of
    [generate_mealplan.py] and the properties of its pipeline.

    Modelling conventions.
    - A menu item is the dict [{"name": ..., "calories": ...}]: a record.
    - Calorie values are Python numbers (the catalog's are ints, the
      extractor's are [float(...)] of a JSON value).  They are taken as
      integers here, so that every comparison and sum of [build_plan] is
      exact; fractions, infinities and NaN have no place in the model.
    - Python [str] is [string], a sequence of 8-bit characters read as
      ASCII: [strip] and [lower] act on ASCII white space and letters.
    - The set [used] of [build_plan] is a [gset string].
    - The [while] loop of [build_plan] has no bound in the source: the model
      runs it on fuel and returns [None] when the fuel is gone.
    - The network is what it answers: the text of the page, and for each
      candidate the response to its request.  What [urlparse] gives of the
      page URL and today's date are inputs.
    - The two regular expressions are matchers on the string, written out
      with the choices the backtracking search ends up with. *)

From stdpp Require Import base option list sets gmap strings pretty sorting.
From Stdlib Require Import ZArith Lia Ascii.

#[local] Set Warnings "-clear-no-such-hyp,-register-all".

Local Open Scope Z_scope.
Local Open Scope string_scope.
Local Open Scope list_scope.

(** ** Data model *)

Record MenuItem := { name : string; calories : Z }.

Global Instance MenuItem_eq_dec : EqDecision MenuItem.
Proof. solve_decision. Defined.

(** [ALWAYS_AVAILABLE] (source lines 19-28). *)
Definition ALWAYS_AVAILABLE : list MenuItem :=
  [ {| name := "Salad bar"; calories := 300 |};
    {| name := "Deli sandwich"; calories := 600 |};
    {| name := "Yogurt"; calories := 150 |};
    {| name := "Pizza"; calories := 350 |};
    {| name := "Chicken tenders"; calories := 400 |};
    {| name := "French fries"; calories := 300 |};
    {| name := "Grilled chicken"; calories := 250 |};
    {| name := "Pasta with sauce"; calories := 500 |} ].

(** The plan is the dict [{"Breakfast": [...], "Dinner": [...]}], whose two
    keys are fixed and iterated in insertion order. *)
Record Plan := { Breakfast : list MenuItem; Dinner : list MenuItem }.

(** ** Fetched data *)

(** A parsed JSON value as Python holds it: [None], [bool], a number, [str],
    [list], [dict].  A dict is the list of its members; no key occurs twice
    in a parsed dict, and a lookup takes the first member of the key. *)
Inductive json : Type :=
  | JNull
  | JBool (b : bool)
  | JNum (n : Z)
  | JStr (s : string)
  | JArr (elems : list json)
  | JObj (members : list (string * json)).

(** ** Plan Builder *)

Module PlanBuilder.

(** [sorted(items, key=lambda x: x['calories'], reverse=True)]: Python's sort
    is stable, also with [reverse=True].  A stable sort is a function of its
    input (see [sorted_desc_unique]); it is written here as the insertion
    sort that puts an item before the first item of the sorted rest whose
    key is not greater. *)
Fixpoint insert_desc (x : MenuItem) (l : list MenuItem) : list MenuItem :=
  match l with
  | [] => [x]
  | y :: l' =>
      if bool_decide (calories y <= calories x) then x :: y :: l'
      else y :: insert_desc x l'
  end.

Definition sorted_desc (l : list MenuItem) : list MenuItem :=
  foldr insert_desc [] l.

(** The state the [while] loop of one meal works on: [plan[meal]], the shared
    set [used], and [meal_total]. *)
Record fill_state := {
  slot : list MenuItem;
  used : gset string;
  meal_total : Z
}.

(** [while meal_total < 1200 and len(plan[meal]) < 6] *)
Definition loop_cond (st : fill_state) : bool :=
  bool_decide (meal_total st < 1200) && bool_decide (length (slot st) < 6)%nat.

(** The [for it in items_sorted] scan up to its [break]: the first item whose
    name is not in [used], if there is one. *)
Fixpoint scan (used : gset string) (items_sorted : list MenuItem)
  : option MenuItem :=
  match items_sorted with
  | [] => None
  | it :: rest =>
      if bool_decide (name it ∈ used) then scan used rest else Some it
  end.

(** The three updates before the [break]: [plan[meal].append(it)],
    [used.add(it['name'])], [meal_total += it['calories']]. *)
Definition pick (st : fill_state) (it : MenuItem) : fill_state :=
  {| slot := slot st ++ [it];
     used := {[ name it ]} ∪ used st;
     meal_total := meal_total st + calories it |}.

(** One iteration of the [while] body.  When the scan finds nothing, the
    [for] loop ends without a [break] and the state is left as it was. *)
Definition scan_pick (items_sorted : list MenuItem) (st : fill_state)
  : fill_state :=
  match scan (used st) items_sorted with
  | Some it => pick st it
  | None => st
  end.

(** The [while] loop of one meal, on fuel. *)
Fixpoint fill_meal (fuel : nat) (items_sorted : list MenuItem)
    (st : fill_state) : option fill_state :=
  match fuel with
  | O => None
  | S fuel' =>
      if loop_cond st then fill_meal fuel' items_sorted (scan_pick items_sorted st)
      else Some st
  end.

(** The state a meal starts in: an empty slot, [meal_total = 0], and the set
    [used] as the meals before left it. *)
Definition meal_start (u : gset string) : fill_state :=
  {| slot := []; used := u; meal_total := 0 |}.

(** [items = items + ALWAYS_AVAILABLE] *)
Definition combined (items : list MenuItem) : list MenuItem :=
  items ++ ALWAYS_AVAILABLE.

(** [items_sorted = sorted(items, key=..., reverse=True)] *)
Definition items_sorted (items : list MenuItem) : list MenuItem :=
  sorted_desc (combined items).

(** [build_plan] (source lines 79-97); each of the two [while] loops gets
    [fuel] iterations. *)
Definition build_plan (fuel : nat) (items : list MenuItem) : option Plan :=
  b ← fill_meal fuel (items_sorted items) (meal_start ∅);
  d ← fill_meal fuel (items_sorted items) (meal_start (used b));
  Some {| Breakfast := slot b; Dinner := slot d |}.

(** *** Definitions for the statements and the proofs *)

(** [cal_ge a b]: [a] may stand before [b] in a sequence sorted by calories,
    highest first. *)
Definition cal_ge (a b : MenuItem) : Prop := calories b <= calories a.

(** The items a sequence of scans would pick, in order, were no meal ever
    full: the first item of each name that is not in [u]. *)
Fixpoint candidates (u : gset string) (l : list MenuItem) : list MenuItem :=
  match l with
  | [] => []
  | it :: rest =>
      if bool_decide (name it ∈ u) then candidates u rest
      else it :: candidates ({[ name it ]} ∪ u) rest
  end.

(** What the [while] loop does when each scan is replaced by taking the next
    candidate; [None] when the candidates run out while the loop condition
    still holds. *)
Fixpoint take_meal (cands : list MenuItem) (st : fill_state)
  : option (fill_state * list MenuItem) :=
  if loop_cond st then
    match cands with
    | [] => None
    | it :: rest => take_meal rest (pick st it)
    end
  else Some (st, cands).

(** The states of one meal's loop after [p] was picked. *)
Definition picks (st : fill_state) (p : list MenuItem) : fill_state :=
  foldl pick st p.

(** [total p]: the sum of the calories of [p]. *)
Definition total (p : list MenuItem) : Z :=
  foldr (λ it acc, calories it + acc) 0 p.

(** [meal_filled p]: [p] is what one meal's loop leaves in its slot.  The
    loop condition held before each item was added (the running total was
    below 1200 and fewer than 6 items were held), and fails on the whole. *)
Definition meal_filled (p : list MenuItem) : Prop :=
  (∀ k, (k < length p)%nat → total (take k p) < 1200 ∧ (k < 6)%nat) ∧
  (1200 <= total p ∨ length p = 6%nat).

(** [visits l st0 st]: the [while] loop of a meal that starts in [st0] tests
    its condition in state [st]. *)
Inductive visits (l : list MenuItem) (st0 : fill_state) : fill_state → Prop :=
  | visits_start : visits l st0 st0
  | visits_next st :
      visits l st0 st → loop_cond st = true → visits l st0 (scan_pick l st).




(** *** Facts about the sort *)

Lemma insert_desc_perm x l : insert_desc x l ≡ₚ x :: l.
Proof.
  induction l as [|y l IH]; simpl; [done|].
  case_bool_decide; [done|].
  rewrite IH. apply Permutation_swap.
Qed.

Lemma sorted_desc_perm l : sorted_desc l ≡ₚ l.
Proof.
  induction l as [|x l IH]; simpl; [done|].
  by rewrite insert_desc_perm, IH.
Qed.

Lemma elem_of_sorted_desc x l : x ∈ sorted_desc l ↔ x ∈ l.
Proof. by rewrite sorted_desc_perm. Qed.

Lemma insert_desc_sorted x l :
  StronglySorted cal_ge l → StronglySorted cal_ge (insert_desc x l).
Proof.
  induction 1 as [|y l Hl IH Hy]; simpl.
  - repeat constructor.
  - case_bool_decide as Hc.
    + constructor; [by constructor|].
      constructor; [done|].
      eapply Forall_impl; [exact Hy|]. unfold cal_ge. intros; lia.
    + constructor; [done|].
      rewrite insert_desc_perm. constructor; [unfold cal_ge; lia|done].
Qed.

Lemma sorted_desc_sorted l : StronglySorted cal_ge (sorted_desc l).
Proof.
  induction l as [|x l IH]; simpl; [constructor|].
  by apply insert_desc_sorted.
Qed.






(** *** The candidates of a scan *)

Lemma scan_head u l : scan u l = head (candidates u l).
Proof.
  induction l as [|it rest IH]; simpl; [done|]. by case_bool_decide.
Qed.

Lemma candidates_pick u l it :
  scan u l = Some it → candidates ({[ name it ]} ∪ u) l = tail (candidates u l).
Proof.
  induction l as [|x rest IH]; simpl; [done|]. intros Hs.
  case_bool_decide as Hx.
  - rewrite bool_decide_true by set_solver. auto.
  - simplify_eq. by rewrite bool_decide_true by set_solver.
Qed.

Lemma candidates_names u l x : x ∈ candidates u l → x ∈ l ∧ name x ∉ u.
Proof.
  revert u. induction l as [|it rest IH]; intros u; simpl; [by inversion 1|].
  case_bool_decide as Hit.
  - intros [??]%IH. split; [by right|done].
  - intros [->|[??]%IH]%elem_of_cons; [split; [left|done]|].
    split; [by right|set_solver].
Qed.

Lemma candidates_sublist u l : candidates u l `sublist_of` l.
Proof.
  revert u. induction l as [|it rest IH]; intros u; simpl; [constructor|].
  case_bool_decide; [by apply sublist_cons|by apply sublist_skip].
Qed.


Lemma candidates_sorted u l :
  StronglySorted cal_ge l → StronglySorted cal_ge (candidates u l).
Proof.
  intros Hl. revert u. induction Hl as [|it rest Hr IH Hit]; intros u; simpl.
  { constructor. }
  case_bool_decide; [done|]. constructor; [done|].
  apply Forall_forall. intros y [Hy _]%candidates_names.
  by apply (proj1 (Forall_forall _ _) Hit).
Qed.

(** Every name outside [u] that occurs in a sorted sequence has a candidate,
    and the candidate has at least the calories of any item of that name. *)
Lemma candidates_cover u l y :
  StronglySorted cal_ge l → y ∈ l → name y ∉ u →
  ∃ x, x ∈ candidates u l ∧ name x = name y ∧ calories y <= calories x.
Proof.
  intros Hl. revert u. induction Hl as [|it rest Hr IH Hit]; intros u Hy Hu.
  { by inversion Hy. }
  simpl. case_bool_decide as Hn.
  - apply elem_of_cons in Hy as [->|Hy]; [done|]. by apply IH.
  - destruct (decide (name y = name it)) as [Heq|Hne].
    + exists it. split; [left|]. split; [done|].
      apply elem_of_cons in Hy as [->|Hy]; [lia|].
      by apply (proj1 (Forall_forall _ _) Hit).
    + apply elem_of_cons in Hy as [->|Hy]; [done|].
      destruct (IH ({[ name it ]} ∪ u) Hy) as (x & ? & ? & ?); [set_solver|].
      exists x. split; [by right|done].
Qed.

(** *** The loop of one meal, read off the candidates *)

Lemma take_meal_unfold cands st :
  take_meal cands st =
  if loop_cond st then
    match cands with
    | [] => None
    | it :: rest => take_meal rest (pick st it)
    end
  else Some (st, cands).
Proof. by destruct cands. Qed.

Lemma loop_cond_length st : loop_cond st = true → (length (slot st) < 6)%nat.
Proof.
  unfold loop_cond. intros [_ H]%andb_prop. by apply bool_decide_eq_true in H.
Qed.

Lemma scan_pick_candidates l st it rest :
  candidates (used st) l = it :: rest →
  scan_pick l st = pick st it ∧ candidates (used (pick st it)) l = rest.
Proof.
  intros Hc. assert (scan (used st) l = Some it) as Hs.
  { by rewrite scan_head, Hc. }
  unfold scan_pick. rewrite Hs. split; [done|].
  simpl. by rewrite (candidates_pick _ _ _ Hs), Hc.
Qed.

Lemma fill_meal_take l fuel st st' r :
  take_meal (candidates (used st) l) st = Some (st', r) →
  (6 - length (slot st) < fuel)%nat →
  fill_meal fuel l st = Some st' ∧ candidates (used st') l = r.
Proof.
  revert st. induction fuel as [|fuel IH]; intros st Ht Hf; [lia|].
  rewrite take_meal_unfold in Ht. simpl.
  destruct (loop_cond st) eqn:Hc; [|by simplify_eq].
  destruct (candidates (used st) l) as [|it rest] eqn:Hcs; [done|].
  destruct (scan_pick_candidates _ _ _ _ Hcs) as [-> Hrest].
  apply IH; [by rewrite Hrest|].
  apply loop_cond_length in Hc. simpl. rewrite length_app. simpl. lia.
Qed.

(** When the candidates run out first, the loop never ends: from the first
    empty scan on, every iteration leaves the state as it was. *)
Lemma fill_meal_spins l fuel st :
  take_meal (candidates (used st) l) st = None → fill_meal fuel l st = None.
Proof.
  revert st. induction fuel as [|fuel IH]; intros st Ht; [done|].
  rewrite take_meal_unfold in Ht. simpl.
  destruct (loop_cond st) eqn:Hc; [|done].
  destruct (candidates (used st) l) as [|it rest] eqn:Hcs.
  - unfold scan_pick. rewrite scan_head, Hcs. simpl. apply IH.
    by rewrite take_meal_unfold, Hc, Hcs.
  - destruct (scan_pick_candidates _ _ _ _ Hcs) as [-> Hrest].
    apply IH. by rewrite Hrest.
Qed.

Lemma picks_slot st p : slot (picks st p) = slot st ++ p.
Proof.
  revert st. induction p as [|it p IH]; intros st; simpl.
  - by rewrite app_nil_r.
  - unfold picks in *. rewrite IH. simpl. by rewrite <- app_assoc.
Qed.

Lemma picks_total st p : meal_total (picks st p) = meal_total st + total p.
Proof.
  revert st. induction p as [|it p IH]; intros st; simpl; [lia|].
  unfold picks in *. rewrite IH. simpl. lia.
Qed.

Lemma picks_used st p x :
  x ∈ used (picks st p) ↔ x ∈ used st ∨ x ∈ name <$> p.
Proof.
  revert st. induction p as [|it p IH]; intros st; simpl.
  - set_solver.
  - unfold picks in *. rewrite IH. simpl. set_solver.
Qed.

(** The picks of a meal are a prefix of the candidates; the loop condition
    holds before each pick and fails after the last. *)
Lemma take_meal_prefix cands st st' r :
  take_meal cands st = Some (st', r) →
  ∃ p, cands = p ++ r ∧ st' = picks st p ∧ loop_cond st' = false ∧
       ∀ k, (k < length p)%nat → loop_cond (picks st (take k p)) = true.
Proof.
  revert st. induction cands as [|it rest IH]; intros st Ht;
    rewrite take_meal_unfold in Ht; destruct (loop_cond st) eqn:Hc;
    simplify_eq.
  - exists []. repeat split; [done|]. simpl. lia.
  - destruct (IH _ Ht) as (p & -> & -> & Hend & Hk).
    exists (it :: p). repeat split; [done|].
    intros [|k] Hlt; simpl in *; [done|]. apply Hk. lia.
  - exists []. repeat split; [done|]. simpl. lia.
Qed.

(** *** The catalog keeps the candidates from running out *)

(** In a sorted sequence the items of at least [v] calories are a prefix. *)
Lemma sorted_lookup_ge (v : Z) l i :
  StronglySorted cal_ge l →
  (i < length (filter (λ y, (v <= calories y)%Z) l))%nat →
  ∃ x, l !! i = Some x ∧ v <= calories x.
Proof.
  intros Hl. revert i. induction Hl as [|h t Ht IH Hh]; intros i; simpl.
  { lia. }
  rewrite filter_cons. case_decide as Hv.
  - destruct i as [|i]; simpl; [eauto|]. intros. apply IH. lia.
  - assert (filter (λ y, v <= calories y) t = []) as ->; [|simpl; lia].
    apply elem_of_nil_inv. intros y [Hy Hin]%list_elem_of_filter.
    apply (proj1 (Forall_forall _ _) Hh) in Hin. unfold cal_ge in Hin. lia.
Qed.

(** Pigeonhole: a sorted sequence that holds items of [n] different names
    with at least [v] calories each has such an item at every index below
    [n]. *)
Lemma sorted_rank (cs : list string) (v : Z) l i :
  StronglySorted cal_ge l → NoDup cs →
  (∀ c, c ∈ cs → ∃ x, x ∈ l ∧ name x = c ∧ v <= calories x) →
  (i < length cs)%nat →
  ∃ x, l !! i = Some x ∧ v <= calories x.
Proof.
  intros Hl Hcs Hall Hi. apply sorted_lookup_ge; [done|].
  assert (cs ⊆+ name <$> filter (λ y, v <= calories y) l) as Hsub.
  { apply NoDup_submseteq; [done|]. intros c (x & ? & <- & ?)%Hall.
    apply list_elem_of_fmap_2. by apply list_elem_of_filter. }
  apply submseteq_length in Hsub. rewrite length_fmap in Hsub. lia.
Qed.

(** A meal that starts on candidates of which the first three, or the first
    four, add up to 1200 kcal takes at most that many. *)
Lemma take_meal_within_4 u e0 e1 e2 e3 rest :
  1200 <= calories e0 + calories e1 + calories e2 + calories e3 →
  ∃ st r, take_meal (e0 :: e1 :: e2 :: e3 :: rest) (meal_start u) = Some (st, r) ∧
    (r = e1 :: e2 :: e3 :: rest ∨ r = e2 :: e3 :: rest ∨ r = e3 :: rest ∨
     r = rest).
Proof.
  intros Hsum. cbn -[Z.add loop_cond]. rewrite (take_meal_unfold rest).
  unfold loop_cond. cbn -[Z.add].
  repeat (case_bool_decide; cbn -[Z.add]; try lia); eauto 10.
Qed.

Lemma take_meal_within_3 u e0 e1 e2 rest :
  1200 <= calories e0 + calories e1 + calories e2 →
  ∃ st r, take_meal (e0 :: e1 :: e2 :: rest) (meal_start u) = Some (st, r) ∧
    (r = e1 :: e2 :: rest ∨ r = e2 :: rest ∨ r = rest).
Proof.
  intros Hsum. cbn -[Z.add loop_cond]. rewrite (take_meal_unfold rest).
  unfold loop_cond. cbn -[Z.add].
  repeat (case_bool_decide; cbn -[Z.add]; try lia); eauto 10.
Qed.

(** The eight catalog names differ from one another. *)
Lemma catalog_names_NoDup : NoDup (name <$> ALWAYS_AVAILABLE).
Proof. apply (bool_decide_unpack _). by vm_compute. Qed.

Section catalog.
Variable items : list MenuItem.

(** The distinct-named items of the sorted sequence, in its order. *)
Let distinct := candidates ∅ (items_sorted items).

Lemma catalog_in_sorted a : a ∈ ALWAYS_AVAILABLE → a ∈ items_sorted items.
Proof.
  intros Ha. unfold items_sorted, combined.
  apply elem_of_sorted_desc, elem_of_app. by right.
Qed.

Lemma distinct_rank (v : Z) i :
  (i < length (filter (λ a, (v <= calories a)%Z) ALWAYS_AVAILABLE))%nat →
  ∃ x, distinct !! i = Some x ∧ v <= calories x.
Proof.
  intros Hi.
  apply (sorted_rank (name <$> filter (λ a, v <= calories a) ALWAYS_AVAILABLE)).
  - apply candidates_sorted, sorted_desc_sorted.
  - apply (sublist_NoDup _ (name <$> ALWAYS_AVAILABLE));
      [apply catalog_names_NoDup|apply fmap_sublist, sublist_filter].
  - intros c (a & -> & [Hv Ha]%list_elem_of_filter)%list_elem_of_fmap.
    destruct (candidates_cover ∅ (items_sorted items) a)
      as (x & ? & ? & ?);
      [apply sorted_desc_sorted|by apply catalog_in_sorted|set_solver|].
    exists x. repeat split; [done..|lia].
  - by rewrite length_fmap.
Qed.

(** The eight highest distinct-named items are at least the catalog's
    eight values, highest first. *)
Lemma distinct_bounds :
  ∃ d0 d1 d2 d3 d4 d5 d6 d7 rest,
    distinct = d0 :: d1 :: d2 :: d3 :: d4 :: d5 :: d6 :: d7 :: rest ∧
    600 <= calories d0 ∧ 500 <= calories d1 ∧ 400 <= calories d2 ∧
    350 <= calories d3 ∧ 300 <= calories d4 ∧ 300 <= calories d5 ∧
    250 <= calories d6 ∧ 150 <= calories d7.
Proof.
  destruct (distinct_rank 600 0) as (d0 & L0 & B0); [vm_compute; lia|].
  destruct (distinct_rank 500 1) as (d1 & L1 & B1); [vm_compute; lia|].
  destruct (distinct_rank 400 2) as (d2 & L2 & B2); [vm_compute; lia|].
  destruct (distinct_rank 350 3) as (d3 & L3 & B3); [vm_compute; lia|].
  destruct (distinct_rank 300 4) as (d4 & L4 & B4); [vm_compute; lia|].
  destruct (distinct_rank 300 5) as (d5 & L5 & B5); [vm_compute; lia|].
  destruct (distinct_rank 250 6) as (d6 & L6 & B6); [vm_compute; lia|].
  destruct (distinct_rank 150 7) as (d7 & L7 & B7); [vm_compute; lia|].
  destruct distinct as [|e0 [|e1 [|e2 [|e3 [|e4 [|e5 [|e6 [|e7 rest]]]]]]]];
    simplify_eq/=.
  by exists d0, d1, d2, d3, d4, d5, d6, d7, rest.
Qed.

End catalog.

(** *** What [build_plan] returns *)

Lemma loop_cond_picks u p :
  loop_cond (picks (meal_start u) p)
  = bool_decide (total p < 1200) && bool_decide (length p < 6)%nat.
Proof.
  unfold loop_cond. by rewrite picks_slot, picks_total.
Qed.

Lemma take_meal_filled cands u st r :
  take_meal cands (meal_start u) = Some (st, r) →
  cands = slot st ++ r ∧ meal_filled (slot st) ∧
  ∀ x, x ∈ used st ↔ x ∈ u ∨ x ∈ name <$> slot st.
Proof.
  intros (p & -> & -> & Hend & Hk)%take_meal_prefix.
  rewrite picks_slot. simpl. split; [done|]. split; [split|].
  - intros k Hlt. specialize (Hk k Hlt). rewrite loop_cond_picks in Hk.
    apply andb_prop in Hk as [H1%bool_decide_eq_true H2%bool_decide_eq_true].
    rewrite length_take in H2. split; [done|lia].
  - rewrite loop_cond_picks in Hend.
    apply andb_false_iff in Hend
      as [H%bool_decide_eq_false|H%bool_decide_eq_false]; [left; lia|].
    right. destruct (decide (length p = 6%nat)) as [|Hne]; [done|].
    assert (6 < length p)%nat as Hlt by lia.
    specialize (Hk 6%nat Hlt). rewrite loop_cond_picks in Hk.
    apply andb_prop in Hk as [_ H2%bool_decide_eq_true].
    rewrite length_take in H2. lia.
  - intros x. by rewrite picks_used.
Qed.

Lemma build_plan_meals fuel items b d :
  fill_meal fuel (items_sorted items) (meal_start ∅) = Some b →
  fill_meal fuel (items_sorted items) (meal_start (used b)) = Some d →
  build_plan fuel items = Some {| Breakfast := slot b; Dinner := slot d |}.
Proof.
  intros Hb Hd. unfold build_plan. rewrite Hb. simpl. by rewrite Hd.
Qed.


Lemma fill_meal_mono l fuel fuel' st st' :
  fill_meal fuel l st = Some st' → (fuel <= fuel')%nat →
  fill_meal fuel' l st = Some st'.
Proof.
  revert fuel' st. induction fuel as [|fuel IH]; intros fuel' st; [done|].
  destruct fuel' as [|fuel']; [lia|]. simpl.
  destruct (loop_cond st); [|done]. intros. apply IH; [done|lia].
Qed.

(** The plan does not depend on the fuel: whenever [build_plan] returns, it
    returns the plan of [build_plan_run]. *)
Lemma build_plan_fuel fuel fuel' items plan plan' :
  build_plan fuel items = Some plan → build_plan fuel' items = Some plan' →
  plan = plan'.
Proof.
  unfold build_plan. intros H H'.
  destruct (fill_meal fuel _ (meal_start ∅)) as [b|] eqn:Hb; [|done].
  destruct (fill_meal fuel' _ (meal_start ∅)) as [b'|] eqn:Hb'; [|done].
  simpl in *.
  destruct (fill_meal fuel _ (meal_start (used b))) as [d|] eqn:Hd; [|done].
  destruct (fill_meal fuel' _ (meal_start (used b'))) as [d'|] eqn:Hd'; [|done].
  simpl in *. simplify_eq.
  apply (fill_meal_mono _ _ (fuel `max` fuel')) in Hb, Hb', Hd, Hd'; try lia.
  simplify_eq. by simplify_eq.
Qed.

(** *** The states of the loops *)

Lemma fill_meal_visits l fuel st0 st' :
  fill_meal fuel l st0 = Some st' → visits l st0 st' ∧ loop_cond st' = false.
Proof.
  enough (∀ st, visits l st0 st → fill_meal fuel l st = Some st' →
                visits l st0 st' ∧ loop_cond st' = false) as H.
  { apply H. constructor. }
  induction fuel as [|fuel IH]; intros st Hv; simpl; [done|].
  destruct (loop_cond st) eqn:Hc.
  - apply IH. by constructor.
  - intros; by simplify_eq.
Qed.





(** *** Selection in a single pass *)




(** *** Runs on concrete menus *)

(** With no extracted item the plan is made of the catalog. *)
Example build_plan_catalog_only :
  build_plan 7 [] =
  Some {| Breakfast := [ {| name := "Deli sandwich"; calories := 600 |};
                         {| name := "Pasta with sauce"; calories := 500 |};
                         {| name := "Chicken tenders"; calories := 400 |} ];
          Dinner := [ {| name := "Pizza"; calories := 350 |};
                      {| name := "Salad bar"; calories := 300 |};
                      {| name := "French fries"; calories := 300 |};
                      {| name := "Grilled chicken"; calories := 250 |} ] |}.
Proof. by vm_compute. Qed.

(** Breakfast takes "Burger" first, and Dinner takes neither of the items
    Breakfast took. *)
Example build_plan_burger_soda :
  build_plan 7 [ {| name := "Burger"; calories := 900 |};
                 {| name := "Soda"; calories := 200 |} ] =
  Some {| Breakfast := [ {| name := "Burger"; calories := 900 |};
                         {| name := "Deli sandwich"; calories := 600 |} ];
          Dinner := [ {| name := "Pasta with sauce"; calories := 500 |};
                      {| name := "Chicken tenders"; calories := 400 |};
                      {| name := "Pizza"; calories := 350 |} ] |}.
Proof. by vm_compute. Qed.

(** An extracted item that bears a catalog name stands in for the catalog's
    item of that name if it has more calories. *)
Example build_plan_same_name :
  build_plan 7 [ {| name := "Yogurt"; calories := 1300 |} ] =
  Some {| Breakfast := [ {| name := "Yogurt"; calories := 1300 |} ];
          Dinner := [ {| name := "Deli sandwich"; calories := 600 |};
                      {| name := "Pasta with sauce"; calories := 500 |};
                      {| name := "Chicken tenders"; calories := 400 |} ] |}.
Proof. by vm_compute. Qed.

(** Without the catalog the loop of a meal would not end: on a sequence of
    one item the second scan finds nothing, whatever the fuel. *)
Example fill_meal_one_item fuel :
  fill_meal fuel [ {| name := "Burger"; calories := 900 |} ] (meal_start ∅)
  = None.
Proof. apply fill_meal_spins. by vm_compute. Qed.

(** *** The claims on the Plan Builder *)







End PlanBuilder.

(** ** Menu Fetcher *)

Module Fetcher.

(** What [requests.get(url, timeout=10)] and the two uses of its result can
    do: the call raises (timeout, connection error), or it returns a response
    with a status code, whose [r.json()] returns the parsed body or raises
    when the body is not JSON ([body = None]). *)
Inductive response :=
  | NetworkError
  | Response (status_code : Z) (body : option json).

(** A candidate is tried at most once: it comes with what its request does
    at the time it is made. *)
Definition candidate : Type := string * response.

Inductive outcome :=
  | Returned (data : json)
  | RuntimeError (msg : string).

Definition no_source_msg : string :=
  "Could not fetch Nutrislice JSON. Try copying the XHR URL from browser DevTools.".

(** The [try] block on one candidate: [Some data] when the function returns
    from inside it, [None] when control goes on to the next candidate (the
    status is not 200, or [requests.get] or [r.json()] raised and the bare
    [except] caught it). *)
Definition try_candidate (r : response) : option json :=
  match r with
  | NetworkError => None
  | Response status_code body =>
      if bool_decide (status_code = 200) then body else None
  end.

(** [fetch_json] (source lines 50-57): the URLs requested, in order, and the
    outcome. *)
Fixpoint fetch_json (candidates : list candidate) : list string * outcome :=
  match candidates with
  | [] => ([], RuntimeError no_source_msg)
  | (url, r) :: rest =>
      match try_candidate r with
      | Some data => ([url], Returned data)
      | None =>
          let '(requests, out) := fetch_json rest in (url :: requests, out)
      end
  end.

(** The response is HTTP 200, whatever its body. *)
Definition responds_200 (r : response) : Prop :=
  ∃ body, r = Response 200 body.

(** The response is HTTP 200 and its body parses to [data]. *)
Definition usable (r : response) (data : json) : Prop :=
  r = Response 200 (Some data).

(** The ways a candidate fails: a network error, a status other than 200, or
    a 200 response whose body does not parse. *)
Definition fails (r : response) : Prop :=
  r = NetworkError ∨
  (∃ status_code body, r = Response status_code body ∧ status_code ≠ 200) ∨
  r = Response 200 None.

Lemma try_candidate_Some r data : try_candidate r = Some data ↔ usable r data.
Proof.
  unfold usable. destruct r as [|sc body]; simpl; [done|].
  case_bool_decide; naive_solver.
Qed.

Lemma try_candidate_None r : try_candidate r = None ↔ fails r.
Proof.
  unfold fails. destruct r as [|sc [data|]]; simpl;
    try case_bool_decide; naive_solver.
Qed.

Lemma fetch_json_app_fails pre rest :
  Forall (λ c, fails c.2) pre →
  fetch_json (pre ++ rest)
  = ((fst <$> pre) ++ (fetch_json rest).1, (fetch_json rest).2).
Proof.
  induction 1 as [|[url r] pre Hr%try_candidate_None Hpre IH]; simpl in *.
  { by destruct (fetch_json rest). }
  rewrite Hr, IH. done.
Qed.

Lemma fetch_json_raises cands msg :
  (fetch_json cands).2 = RuntimeError msg → Forall (λ c, fails c.2) cands.
Proof.
  induction cands as [|[url r] rest IH]; simpl; [constructor|].
  destruct (try_candidate r) eqn:Hr; [done|].
  destruct (fetch_json rest) as [reqs out] eqn:Hrest. simpl in *.
  intros Hout. constructor; [by apply try_candidate_None|by apply IH].
Qed.

(** Two network errors, then a 200 response with JSON: the third's data is
    returned after three requests. *)
Example fetch_json_third :
  fetch_json [ ("u1", NetworkError); ("u2", NetworkError);
               ("u3", Response 200 (Some (JObj []))); ("u4", NetworkError) ]
  = (["u1"; "u2"; "u3"], Returned (JObj [])).
Proof. reflexivity. Qed.

(** C4, as stated, fails: the first candidate below responds with HTTP 200,
    its body does not parse, and [fetch_json] goes on to request the second
    candidate and returns that one's data. *)
Lemma fetch_json_first_200_skipped :
  ¬ (∀ pre url r post,
       Forall (λ c, ¬ responds_200 c.2) pre → responds_200 r →
       (fetch_json (pre ++ (url, r) :: post)).1 = (fst <$> pre) ++ [url]).
Proof.
  intros H.
  assert ((fetch_json [("a", Response 200 None);
                       ("b", Response 200 (Some JNull))]).1 = ["a"]) as Hreq.
  { apply (H [] "a" (Response 200 None) [("b", Response 200 (Some JNull))]).
    - constructor.
    - by exists None. }
  discriminate Hreq.
Qed.

(** C4, amended.  [fetch_json] requests the candidates in order up to the
    first one that responds with HTTP 200 and a body that parses, returns
    that body's data and requests no later candidate; a candidate that
    fails (network error, status other than 200, unparsable body) is passed
    over; it raises the "could not fetch" error exactly when every candidate
    fails, the empty list included, having requested them all. *)
Theorem fetch_json_first_usable (cands : list candidate) :
  (∀ pre url r data post,
     cands = pre ++ (url, r) :: post →
     Forall (λ c, fails c.2) pre → usable r data →
     fetch_json cands = ((fst <$> pre) ++ [url], Returned data)) ∧
  (Forall (λ c, fails c.2) cands ↔ ∃ msg, (fetch_json cands).2 = RuntimeError msg) ∧
  (Forall (λ c, fails c.2) cands →
     fetch_json cands = (fst <$> cands, RuntimeError no_source_msg)) ∧
  fetch_json [] = ([], RuntimeError no_source_msg).
Proof.
  split; [|split; [split|split]].
  - intros pre url r data post -> Hpre Hr%try_candidate_Some.
    rewrite fetch_json_app_fails by done. simpl. by rewrite Hr.
  - intros Hall. exists no_source_msg.
    rewrite <- (app_nil_r cands), fetch_json_app_fails by done. done.
  - intros [msg Hmsg]. by eapply fetch_json_raises.
  - intros Hall.
    rewrite <- (app_nil_r cands) at 1. rewrite fetch_json_app_fails by done.
    simpl. by rewrite app_nil_r.
  - done.
Qed.

End Fetcher.

(** ** Item Extractor *)

Module Extractor.

(** The exceptions the operations of [extract_items] can raise. *)
Inductive exn := AttributeError | TypeError | KeyError | ValueError.

Inductive res (A : Type) : Type :=
  | Ok (a : A)
  | Raise (e : exn).
Global Arguments Ok {A} a.
Global Arguments Raise {A} e.

Global Instance res_bind : MBind res := λ A B f m,
  match m with
  | Ok a => f a
  | Raise e => Raise e
  end.

(** *** Strings *)

(** [c.isspace()] on an ASCII character. *)
Definition is_space (c : ascii) : bool :=
  let n := nat_of_ascii c in
  ((9 <=? n) && (n <=? 13) || (28 <=? n) && (n <=? 32))%nat.

Fixpoint lstrip (s : string) : string :=
  match s with
  | String c s' => if is_space c then lstrip s' else s
  | EmptyString => EmptyString
  end.

Definition rstrip (s : string) : string := String.rev (lstrip (String.rev s)).

(** [s.strip()] *)
Definition strip (s : string) : string := lstrip (rstrip s).

Definition lower_ascii (c : ascii) : ascii :=
  let n := nat_of_ascii c in
  if ((65 <=? n) && (n <=? 90))%nat then ascii_of_nat (n + 32) else c.

(** [s.lower()] *)
Fixpoint lower (s : string) : string :=
  match s with
  | String c s' => String (lower_ascii c) (lower s')
  | EmptyString => EmptyString
  end.

(** [sub in s] *)
Fixpoint contains (sub s : string) : bool :=
  String.prefix sub s ||
  match s with
  | String _ s' => contains sub s'
  | EmptyString => false
  end.

(** *** Python operations on parsed values *)

(** [bool(v)] *)
Definition truthy (v : json) : bool :=
  match v with
  | JNull => false
  | JBool b => b
  | JNum n => negb (Z.eqb n 0)
  | JStr s => negb (String.eqb s "")
  | JArr elems => negb (bool_decide (elems = []))
  | JObj members => negb (bool_decide (members = []))
  end.

Fixpoint assoc (key : string) (members : list (string * json)) : option json :=
  match members with
  | [] => None
  | (k, v) :: rest => if String.eqb k key then Some v else assoc key rest
  end.

(** [v.get(key, dflt)]; [v.get(key)] is [get v key JNull]. *)
Definition get (v : json) (key : string) (dflt : json) : res json :=
  match v with
  | JObj members => Ok (default dflt (assoc key members))
  | _ => Raise AttributeError
  end.

(** [v[key]] for a [str] key. *)
Definition getitem (v : json) (key : string) : res json :=
  match v with
  | JObj members =>
      match assoc key members with
      | Some x => Ok x
      | None => Raise KeyError
      end
  | _ => Raise TypeError
  end.

(** [a or b], [b] already a value. *)
Definition or_else (a b : json) : json := if truthy a then a else b.

(** The values [for x in v] runs over: a list's elements, a dict's keys, a
    string's characters. *)
Definition iter (v : json) : res (list json) :=
  match v with
  | JArr elems => Ok elems
  | JObj members => Ok ((λ kv, JStr kv.1) <$> members)
  | JStr s => Ok ((λ c, JStr (String c EmptyString)) <$> String.list_ascii_of_string s)
  | _ => Raise TypeError
  end.

(** [v.strip()]: only [str] has the method. *)
Definition strip_method (v : json) : res string :=
  match v with
  | JStr s => Ok (strip s)
  | _ => Raise AttributeError
  end.

(** [v == s] for a [str] [s]. *)
Definition eq_str (v : json) (s : string) : bool :=
  match v with
  | JStr s' => String.eqb s' s
  | _ => false
  end.

Section extract.

(** [datetime.date.today().strftime("%Y-%m-%d")], and Python's [float] on a
    [str] ([None] when it raises [ValueError]). *)
Variable today_str : string.
Variable float_of_str : string → option Z.

(** [float(v)] *)
Definition float (v : json) : res Z :=
  match v with
  | JNum n => Ok n
  | JBool b => Ok (if b then 1 else 0)
  | JStr s =>
      match float_of_str s with
      | Some n => Ok n
      | None => Raise ValueError
      end
  | _ => Raise TypeError
  end.

(** The fixed exclusion test (source line 69). *)
Definition is_fish (nm : string) : bool :=
  contains "fish" (lower nm) || contains "salmon" (lower nm)
  || contains "tilapia" (lower nm).

(** The body of the inner loop (source lines 66-76) on one entry [mi]:
    [None] when it leaves by [continue], the appended item otherwise. *)
Definition extract_entry (mi : json) : res (option MenuItem) :=
  food0 ← get mi "food" JNull;
  let food := or_else food0 (JObj []) in
  fname ← get food "name" JNull;
  nm0 ← (if truthy fname then Ok fname
         else text ← get mi "text" JNull; Ok (or_else text (JStr "Unknown")));
  nm ← strip_method nm0;
  if is_fish nm then Ok None
  else
    rounded0 ← get food "rounded_nutrition_info" JNull;
    let rounded := or_else rounded0 (JObj []) in
    rc ← get rounded "calories" JNull;
    cals ← (if truthy rc then getitem rounded "calories"
            else
              agg ← get mi "aggregated_data" (JObj []);
              ac ← get agg "calories" JNull;
              if truthy ac then
                agg' ← getitem mi "aggregated_data"; getitem agg' "calories"
              else Ok JNull);
    c ← (if truthy cals then float cals else Ok 250);
    Ok (Some {| name := nm; calories := c |}).

(** The inner loop over [d.get('menu_items', [])], appending to [items]. *)
Fixpoint menu_items_loop (entries : list json) (items : list MenuItem)
  : res (list MenuItem) :=
  match entries with
  | [] => Ok items
  | mi :: rest =>
      r ← extract_entry mi;
      menu_items_loop rest (match r with Some it => items ++ [it] | None => items end)
  end.

(** The outer loop over [days]. *)
Fixpoint days_loop (days : list json) (items : list MenuItem)
  : res (list MenuItem) :=
  match days with
  | [] => Ok items
  | d :: rest =>
      date ← get d "date" JNull;
      if eq_str date today_str then
        menu_items ← get d "menu_items" (JArr []);
        entries ← iter menu_items;
        items' ← menu_items_loop entries items;
        days_loop rest items'
      else days_loop rest items
  end.

(** [extract_items] (source lines 59-77). *)
Definition extract_items (week_json : json) : res (list MenuItem) :=
  days0 ← get week_json "days" JNull;
  days1 ← (if truthy days0 then Ok days0
           else menu_days ← get week_json "menu_days" JNull;
                Ok (or_else menu_days (JArr [])));
  days ← iter days1;
  days_loop days [].

(** The items one day record contributes: those of its entries when its
    date is today's, none otherwise. *)
Definition day_items (d : json) : res (list MenuItem) :=
  date ← get d "date" JNull;
  if eq_str date today_str then
    menu_items ← get d "menu_items" (JArr []);
    entries ← iter menu_items;
    menu_items_loop entries []
  else Ok [].

End extract.

(** *** The words of the claims on the extractor *)

(** [contains_ci sub s]: [sub] occurs in [s] when case is ignored, that is,
    some substring of [s] differs from [sub] in case only. *)
Definition contains_ci (sub s : string) : Prop :=
  ∃ pre mid post, s = pre +:+ mid +:+ post ∧ lower mid = lower sub.

(** [field path v]: the value found in [v] by following the keys of [path]
    through nested dicts; [JNull] when a key is absent or a value on the way
    is not a dict. *)
Fixpoint field (path : list string) (v : json) : json :=
  match path with
  | [] => v
  | key :: rest =>
      match v with
      | JObj members =>
          match assoc key members with
          | Some x => field rest x
          | None => JNull
          end
      | _ => JNull
      end
  end.

(** [present path v]: every key of [path] is there. *)
Fixpoint present (path : list string) (v : json) : bool :=
  match path with
  | [] => true
  | key :: rest =>
      match v with
      | JObj members =>
          match assoc key members with
          | Some x => present rest x
          | None => false
          end
      | _ => false
      end
  end.


(** The name the code takes: the first of the nested food name and the text
    field that is truthy (for a string: not empty), else "Unknown". *)
Definition name_if_truthy (mi : json) : json :=
  or_else (field ["food"; "name"] mi)
    (or_else (field ["text"] mi) (JStr "Unknown")).

(** The calorie value the code converts: the first of the two calorie fields
    that is truthy, if any. *)
Definition calories_field (mi : json) : option json :=
  let rc := field ["food"; "rounded_nutrition_info"; "calories"] mi in
  let ac := field ["aggregated_data"; "calories"] mi in
  if truthy rc then Some rc else if truthy ac then Some ac else None.

(** The collection of day records of the fetched data, under either key. *)
Definition week_days (week_json : json) : json :=
  or_else (field ["days"] week_json)
    (or_else (field ["menu_days"] week_json) (JArr [])).

Definition is_today (today_str : string) (d : json) : bool :=
  eq_str (field ["date"] d) today_str.

(** The fetched data that holds the day records [ds] under the key [days]. *)
Definition week_of (ds : list json) : json := JObj [("days", JArr ds)].

(** The value is a dict. *)
Definition is_dict (v : json) : Prop := ∃ members, v = JObj members.

(** [menu_items_of d]: what [d.get('menu_items', [])] is for a dict [d]. *)
Definition menu_items_of (d : json) : json :=
  if present ["menu_items"] d then field ["menu_items"] d else JArr [].

(** [today_entries today_str week_json entries]: [entries] are the menu
    entries of the day records of [week_json] whose date is [today_str], in
    the order of the records and, within a record, of its entries. *)
Definition today_entries (today_str : string) (week_json : json)
    (entries : list json) : Prop :=
  ∃ ds per_day,
    iter (week_days week_json) = Ok ds ∧
    Forall2 (λ d es, iter (menu_items_of d) = Ok es)
      (filter (λ d, is_today today_str d = true) ds) per_day ∧
    entries = concat per_day.

(** [entry_result float_of_str name_of mi r]: the entry [mi], whose name is
    taken by [name_of], is skipped ([r = None]) when its stripped name is on
    the exclusion list, and gives the item [r = Some it] of that name
    otherwise, with [float] of the calorie field, or 250 when no calorie
    field is truthy. *)
Definition entry_result (float_of_str : string → option Z)
    (name_of : json → json) (mi : json) (r : option MenuItem) : Prop :=
  ∃ s, name_of mi = JStr s ∧
    match r with
    | None => is_fish (strip s) = true
    | Some it =>
        is_fish (strip s) = false ∧ name it = strip s ∧
        match calories_field mi with
        | Some v => float float_of_str v = Ok (calories it)
        | None => calories it = 250
        end
    end.

(** *** Sample data *)

Definition sample_salmon : json :=
  JObj [("food", JObj [("name", JStr "  Baked Salmon ");
                       ("rounded_nutrition_info", JObj [("calories", JNum 400)])])].

Definition sample_burger : json :=
  JObj [("food", JObj [("name", JStr " Burger ");
                       ("rounded_nutrition_info", JObj [("calories", JNum 900)])]);
        ("aggregated_data", JObj [("calories", JNum 850)])].

Definition sample_rice : json :=
  JObj [("text", JStr "Rice"); ("aggregated_data", JObj [("calories", JNum 0)])].

(** An entry whose nested food name is there and empty. *)
Definition sample_soup : json :=
  JObj [("food", JObj [("name", JStr "")]); ("text", JStr "Soup")].

Definition sample_day (date : string) (entries : list json) : json :=
  JObj [("date", JStr date); ("menu_items", JArr entries)].

Definition sample_days : list json :=
  [ sample_day "2024-05-01" [sample_salmon; sample_burger];
    sample_day "2024-05-02" [sample_soup];
    sample_day "2024-05-01" [sample_rice] ].

Definition no_float : string → option Z := λ _, None.

(** *** Facts about the string operations *)

Lemma lower_app s1 s2 : lower (s1 +:+ s2) = lower s1 +:+ lower s2.
Proof. induction s1 as [|c s1 IH]; simpl; [done|]. by rewrite IH. Qed.

Lemma prefix_app sub s : String.prefix sub (sub +:+ s) = true.
Proof.
  induction sub as [|c sub IH]; simpl; [by destruct s|].
  by destruct (ascii_dec c c).
Qed.

Lemma contains_unfold sub s :
  contains sub s =
  String.prefix sub s ||
  match s with
  | String _ s' => contains sub s'
  | EmptyString => false
  end.
Proof. by destruct s. Qed.

Lemma contains_app pre sub post : contains sub (pre +:+ sub +:+ post) = true.
Proof.
  induction pre as [|c pre IH].
  - change (contains sub (sub +:+ post) = true).
    by rewrite contains_unfold, prefix_app.
  - change (contains sub (String c (pre +:+ sub +:+ post)) = true).
    rewrite contains_unfold, IH. apply orb_true_r.
Qed.

Lemma contains_lower sub s :
  lower sub = sub → contains_ci sub s → contains sub (lower s) = true.
Proof.
  intros Hsub (pre & mid & post & -> & Hmid).
  rewrite !lower_app, Hmid, Hsub. apply contains_app.
Qed.

Lemma is_fish_false nm sub :
  is_fish nm = false → sub ∈ ["fish"; "salmon"; "tilapia"] →
  ¬ contains_ci sub nm.
Proof.
  unfold is_fish. intros Hf Hsub Hci.
  apply orb_false_elim in Hf as [Hf Ht]. apply orb_false_elim in Hf as [Hf Hs].
  apply elem_of_cons in Hsub as [->|Hsub];
    [|apply elem_of_cons in Hsub as [->|Hsub];
      [|apply list_elem_of_singleton in Hsub as ->]];
    apply contains_lower in Hci; try done; congruence.
Qed.

(** *** Facts about the loops *)

Lemma bind_Ok {A B} (m : res A) (f : A → res B) b :
  m ≫= f = Ok b ↔ ∃ a, m = Ok a ∧ f a = Ok b.
Proof. destruct m; simpl; naive_solver. Qed.

Ltac inv_res :=
  repeat match goal with
    | H : _ ≫= _ = Ok _ |- _ => apply bind_Ok in H as (? & ? & H)
    | H : Ok _ = Ok _ |- _ => injection H as H
    | H : Raise _ = Ok _ |- _ => discriminate H
    end.

Lemma field_null path : field path JNull = JNull.
Proof. by destruct path. Qed.

Lemma field_app p1 p2 v : field (p1 ++ p2) v = field p2 (field p1 v).
Proof.
  revert v. induction p1 as [|key p1 IH]; intros v; simpl; [done|].
  destruct v as [| | | | |members]; try by rewrite field_null.
  destruct (assoc key members); [done|by rewrite field_null].
Qed.

Lemma field_or_else key v : field [key] (or_else v (JObj [])) = field [key] v.
Proof.
  unfold or_else. destruct (truthy v) eqn:Hv; [done|].
  destruct v as [| | | | |members]; simpl in *; try done.
  apply negb_false_iff, bool_decide_eq_true in Hv. by subst.
Qed.

Lemma get_field v key x : get v key JNull = Ok x → x = field [key] v.
Proof.
  destruct v as [| | | | |members]; simpl; try done.
  intros [= <-]. by destruct (assoc key members).
Qed.

Lemma get_or_else_field v key x :
  get (or_else v (JObj [])) key JNull = Ok x → x = field [key] v.
Proof. intros ->%get_field. apply field_or_else. Qed.

Lemma get_menu_items d x :
  get d "menu_items" (JArr []) = Ok x → x = menu_items_of d.
Proof.
  destruct d as [| | | | |members]; simpl; try done.
  intros [= <-]. unfold menu_items_of. simpl.
  by destruct (assoc "menu_items" members).
Qed.

Lemma getitem_field v key x : getitem v key = Ok x → x = field [key] v.
Proof.
  destruct v as [| | | | |members]; simpl; try done.
  destruct (assoc key members); [|done]. by intros [= <-].
Qed.

Section extract_facts.
Variable today_str : string.
Variable float_of_str : string → option Z.

#[local] Abbreviation float := (float float_of_str).
#[local] Abbreviation extract_entry := (extract_entry float_of_str).
#[local] Abbreviation menu_items_loop := (menu_items_loop float_of_str).
#[local] Abbreviation days_loop := (days_loop today_str float_of_str).
#[local] Abbreviation extract_items := (extract_items today_str float_of_str).
#[local] Abbreviation day_items := (day_items today_str float_of_str).

Lemma extract_entry_not_fish mi it :
  extract_entry mi = Ok (Some it) → is_fish (name it) = false.
Proof.
  unfold extract_entry. intros H. inv_res.
  destruct (is_fish _) eqn:Hf; inv_res; [done|]. by simplify_eq.
Qed.

(** The inner loop appends, entry by entry, the items of the entries that
    are not skipped. *)
Lemma menu_items_loop_spec entries items items' :
  menu_items_loop entries items = Ok items' ↔
  ∃ rs, Forall2 (λ mi r, extract_entry mi = Ok r) entries rs ∧
        items' = items ++ omap id rs.
Proof.
  revert items. induction entries as [|mi rest IH]; intros items; simpl.
  - split.
    + intros [= <-]. exists []. by rewrite app_nil_r.
    + intros (rs & ->%Forall2_nil_inv_l & ->). by rewrite app_nil_r.
  - rewrite bind_Ok. split.
    + intros (r & Hr & (rs & Hrs & ->)%IH). exists (r :: rs).
      split; [by constructor|]. destruct r; simpl; [|done].
      by rewrite <- app_assoc.
    + intros (rs & (r & rs' & Hr & Hrs & ->)%Forall2_cons_inv_l & ->).
      exists r. split; [done|]. apply IH. exists rs'. split; [done|].
      destruct r; simpl; [|done]. by rewrite <- app_assoc.
Qed.

(** What the loop body makes of an entry. *)
Lemma extract_entry_result mi r :
  extract_entry mi = Ok r → entry_result float_of_str name_if_truthy mi r.
Proof.
  unfold Extractor.extract_entry. intros H.
  apply bind_Ok in H as (food0 & ->%get_field & H).
  apply bind_Ok in H as (fname & ->%get_or_else_field & H).
  rewrite <- (field_app ["food"] ["name"]) in H.
  apply bind_Ok in H as (nm0 & Hnm0 & H).
  assert (nm0 = name_if_truthy mi) as ->.
  { unfold name_if_truthy, or_else at 1. simpl app in Hnm0.
    destruct (truthy (field ["food"; "name"] mi)); [by inv_res|].
    apply bind_Ok in Hnm0 as (text & ->%get_field & Hnm0). by inv_res. }
  apply bind_Ok in H as (nm & Hnm & H).
  destruct (name_if_truthy mi) as [| | |s| |] eqn:Hname; try done.
  simpl in Hnm. injection Hnm as <-. exists s. split; [done|].
  destruct (is_fish (strip s)); [by injection H as <-|].
  apply bind_Ok in H as (rounded0 & ->%get_or_else_field & H).
  rewrite <- (field_app ["food"] ["rounded_nutrition_info"]) in H.
  apply bind_Ok in H as (rc & ->%get_or_else_field & H).
  rewrite <- (field_app (_ ++ _) ["calories"]) in H. simpl app in H.
  apply bind_Ok in H as (cals & Hcals & H).
  apply bind_Ok in H as (c & Hc & H). injection H as <-. simpl.
  split; [done|]. split; [done|]. unfold calories_field.
  destruct (truthy (field ["food"; "rounded_nutrition_info"; "calories"] mi))
    eqn:Hrc.
  { apply getitem_field in Hcals. rewrite field_or_else in Hcals.
    rewrite <- (field_app ["food"; "rounded_nutrition_info"] ["calories"])
      in Hcals. simpl app in Hcals. subst cals. by rewrite Hrc in Hc. }
  apply bind_Ok in Hcals as (agg & Hagg & Hcals).
  apply bind_Ok in Hcals as (ac & Hac & Hcals).
  assert (ac = field ["aggregated_data"; "calories"] mi) as ->.
  { destruct mi as [| | | | |members]; simpl in *; try done.
    injection Hagg as <-.
    destruct (assoc "aggregated_data" members); simpl in *;
      [by apply get_field in Hac|by injection Hac as <-]. }
  destruct (truthy (field ["aggregated_data"; "calories"] mi)) eqn:Hact.
  - apply bind_Ok in Hcals as (agg' & ->%getitem_field & ->%getitem_field).
    rewrite <- (field_app ["aggregated_data"] ["calories"]) in Hc.
    simpl app in Hc. by rewrite Hact in Hc.
  - injection Hcals as <-. simpl in Hc. by injection Hc as <-.
Qed.

Lemma menu_items_loop_acc entries items items' :
  menu_items_loop entries items = Ok items' ↔
  ∃ its, menu_items_loop entries [] = Ok its ∧ items' = items ++ its.
Proof.
  rewrite menu_items_loop_spec. split.
  - intros (rs & Hrs & ->). exists (omap id rs). split; [|done].
    apply menu_items_loop_spec. by exists rs.
  - intros (its & (rs & Hrs & ->)%menu_items_loop_spec & ->). by exists rs.
Qed.

Lemma days_loop_spec days items items' :
  days_loop days items = Ok items' ↔
  ∃ per_day, Forall2 (λ d its, day_items d = Ok its) days per_day ∧
             items' = items ++ concat per_day.
Proof.
  revert items. induction days as [|d rest IH]; intros items; simpl.
  - split.
    + intros [= <-]. exists []. by rewrite app_nil_r.
    + intros (per_day & ->%Forall2_nil_inv_l & ->). by rewrite app_nil_r.
  - split.
    + intros (date & Hdate & H)%bind_Ok.
      destruct (eq_str date today_str) eqn:Heq.
      * apply bind_Ok in H as (mis & Hmis & H).
        apply bind_Ok in H as (entries & Hentries & H).
        apply bind_Ok in H as (its0 & (its & Hits & ->)%menu_items_loop_acc & H).
        apply IH in H as (per_day & Hpd & ->). exists (its :: per_day).
        split; [|simpl; by rewrite app_assoc]. constructor; [|done].
        unfold Extractor.day_items. rewrite Hdate. simpl. rewrite Heq, Hmis. simpl.
        by rewrite Hentries.
      * apply IH in H as (per_day & Hpd & ->). exists ([] :: per_day).
        split; [|done]. constructor; [|done].
        unfold Extractor.day_items. rewrite Hdate. simpl. by rewrite Heq.
    + intros (pd & (its & per_day & Hd & Hpd & ->)%Forall2_cons_inv_l & ->).
      unfold Extractor.day_items in Hd.
      apply bind_Ok in Hd as (date & -> & Hd). simpl.
      destruct (eq_str date today_str).
      * apply bind_Ok in Hd as (mis & -> & Hd). simpl.
        apply bind_Ok in Hd as (entries & -> & Hd). simpl.
        apply bind_Ok. exists (items ++ its).
        split; [apply menu_items_loop_acc; by exists its|].
        apply IH. exists per_day. split; [done|]. simpl. by rewrite app_assoc.
      * injection Hd as <-. apply IH. by exists per_day.
Qed.

Lemma extract_items_week_of ds : extract_items (week_of ds) = days_loop ds [].
Proof. by destruct ds. Qed.

Lemma extract_items_single d : extract_items (week_of [d]) = day_items d.
Proof.
  rewrite extract_items_week_of. simpl. unfold Extractor.day_items.
  destruct (get d "date" JNull) as [date|]; simpl; [|done].
  destruct (eq_str date today_str); [|done].
  destruct (get d "menu_items" (JArr [])) as [mis|]; simpl; [|done].
  destruct (iter mis) as [entries|]; simpl; [|done].
  by destruct (Extractor.menu_items_loop _ entries []).
Qed.

Lemma extract_items_days week_json items :
  extract_items week_json = Ok items →
  ∃ ds, iter (week_days week_json) = Ok ds ∧ days_loop ds [] = Ok items.
Proof.
  unfold Extractor.extract_items. intros H.
  apply bind_Ok in H as (days0 & ->%get_field & H).
  apply bind_Ok in H as (days1 & Hdays1 & H).
  assert (days1 = week_days week_json) as ->.
  { unfold week_days, or_else at 1.
    destruct (truthy (field ["days"] week_json)); [by inv_res|].
    apply bind_Ok in Hdays1 as (md & ->%get_field & Hdays1). by inv_res. }
  apply bind_Ok in H as (ds & Hds & H). by exists ds.
Qed.

Lemma day_items_today d its :
  day_items d = Ok its → is_today today_str d = false → its = [].
Proof.
  unfold Extractor.day_items, is_today.
  intros (date & ->%get_field & H)%bind_Ok Hd. rewrite Hd in H. by inv_res.
Qed.

Lemma day_items_today_inv d its :
  day_items d = Ok its → is_today today_str d = true →
  ∃ es rs, iter (menu_items_of d) = Ok es ∧
           Forall2 (λ mi r, extract_entry mi = Ok r) es rs ∧
           its = omap id rs.
Proof.
  unfold Extractor.day_items, is_today.
  intros (date & ->%get_field & H)%bind_Ok Ht. rewrite Ht in H.
  apply bind_Ok in H as (mis & ->%get_menu_items & H).
  apply bind_Ok in H as (es & Hes & H).
  apply menu_items_loop_spec in H as (rs & Hrs & ->). by exists es, rs.
Qed.

Lemma day_items_entries ds per_day :
  Forall2 (λ d its, day_items d = Ok its) ds per_day →
  ∃ per_day_entries rs,
    Forall2 (λ d es, iter (menu_items_of d) = Ok es)
      (filter (λ d, is_today today_str d = true) ds) per_day_entries ∧
    Forall2 (λ mi r, extract_entry mi = Ok r) (concat per_day_entries) rs ∧
    concat per_day = omap id rs.
Proof.
  induction 1 as [|d its ds per_day Hd Hds (pde & rs & Hpde & Hrs & Heq)].
  { by exists [], []. }
  rewrite filter_cons. case_decide as Ht.
  - destruct (day_items_today_inv _ _ Hd Ht) as (es & rs0 & Hes & Hrs0 & ->).
    exists (es :: pde), (rs0 ++ rs). split; [by constructor|].
    split; [by apply Forall2_app|]. simpl. by rewrite Heq, omap_app.
  - exists pde, rs. split; [done|]. split; [done|].
    apply not_true_is_false in Ht. by rewrite (day_items_today _ _ Hd Ht).
Qed.

(** The list [extract_items] returns: the loop body applied to today's
    entries, one by one, without the entries it skips. *)
Lemma extract_items_entries week_json items :
  extract_items week_json = Ok items →
  ∃ entries rs,
    today_entries today_str week_json entries ∧
    Forall2 (λ mi r, extract_entry mi = Ok r) entries rs ∧
    items = omap id rs.
Proof.
  intros (ds & Hds & (per_day & Hpd & ->)%days_loop_spec)%extract_items_days.
  destruct (day_items_entries _ _ Hpd) as (pde & rs & Hpde & Hrs & Heq).
  exists (concat pde), rs. split; [by exists ds, pde|]. by split.
Qed.

Lemma extract_items_inv week_json items it :
  extract_items week_json = Ok items → it ∈ items →
  ∃ mi, extract_entry mi = Ok (Some it).
Proof.
  intros (entries & rs & _ & Hrs & ->)%extract_items_entries.
  intros (r & Hr & Hid)%list_elem_of_omap. unfold id in Hid. subst r.
  apply list_elem_of_lookup in Hr as [i Hi].
  destruct (Forall2_lookup_r _ _ _ _ _ Hrs Hi) as (mi & _ & Hmi).
  by exists mi.
Qed.

Lemma extract_items_dict members :
  extract_items (JObj members) =
  ds ← iter (week_days (JObj members)); days_loop ds [].
Proof.
  unfold Extractor.extract_items, week_days, or_else. simpl.
  destruct (assoc "days" members) as [days|]; simpl.
  - destruct (truthy days); simpl; [done|].
    by destruct (assoc "menu_days" members).
  - by destruct (assoc "menu_days" members).
Qed.

Lemma days_loop_no_match ds :
  Forall is_dict ds → Forall (λ d, is_today today_str d = false) ds →
  days_loop ds [] = Ok [].
Proof.
  induction 1 as [|d ds [members ->] Hds IH]; [done|].
  intros [Hd Hrest]%Forall_cons. simpl.
  unfold is_today in Hd. simpl in Hd.
  destruct (assoc "date" members) as [date|]; simpl in *;
    [rewrite Hd|]; by apply IH.
Qed.

Lemma day_items_filter ds per_day :
  Forall2 (λ d its, day_items d = Ok its) ds per_day →
  ∃ per_day',
    Forall2 (λ d its, day_items d = Ok its)
      (filter (λ d, is_today today_str d = true) ds) per_day' ∧
    concat per_day = concat per_day'.
Proof.
  induction 1 as [|d its ds per_day Hd Hds (per_day' & IH & Heq)].
  { by exists []. }
  rewrite filter_cons. case_decide as Ht.
  - exists (its :: per_day'). split; [by constructor|]. simpl. by rewrite Heq.
  - exists per_day'. split; [done|].
    apply not_true_is_false in Ht. by rewrite (day_items_today _ _ Hd Ht).
Qed.

End extract_facts.

(** *** Runs on the sample data *)

Example extract_items_sample :
  extract_items "2024-05-01" no_float (week_of sample_days) =
  Ok [ {| name := "Burger"; calories := 900 |};
       {| name := "Rice"; calories := 250 |} ].
Proof. reflexivity. Qed.

(** No day record of the date: no item, and no error. *)
Example extract_items_other_day :
  extract_items "2024-05-03" no_float (week_of sample_days) = Ok [].
Proof. reflexivity. Qed.

(** A day record whose [aggregated_data] is [null] makes [extract_items]
    raise. *)
Example extract_items_raises :
  extract_items "2024-05-01" no_float
    (week_of [sample_day "2024-05-01"
                [JObj [("text", JStr "Tea"); ("aggregated_data", JNull)]]])
  = Raise AttributeError.
Proof. reflexivity. Qed.

(** *** The claims on the extractor *)

(** C6. No item of the list [extract_items] returns has a name in which
    "fish", "salmon" or "tilapia" occurs when case is ignored: each of
    today's entries with such a name is skipped and gives no item. *)
Theorem extract_items_no_fish today_str float_of_str week_json items :
  extract_items today_str float_of_str week_json = Ok items →
  (∀ it sub, it ∈ items → sub ∈ ["fish"; "salmon"; "tilapia"] →
             ¬ contains_ci sub (name it)) ∧
  (∃ entries rs,
     today_entries today_str week_json entries ∧
     items = omap id rs ∧
     Forall2 (λ mi r, ∀ s sub,
                name_if_truthy mi = JStr s →
                sub ∈ ["fish"; "salmon"; "tilapia"] →
                contains_ci sub (strip s) → r = None) entries rs).
Proof.
  intros Hex. split.
  - intros it sub Hit Hsub.
    destruct (extract_items_inv _ _ _ _ _ Hex Hit) as (mi & Hmi).
    eapply is_fish_false; [|done]. by eapply extract_entry_not_fish.
  - apply extract_items_entries in Hex as (entries & rs & Hentries & Hrs & ->).
    exists entries, rs. split; [done|]. split; [done|].
    eapply Forall2_impl; [exact Hrs|]. intros mi r Hr s sub Hs Hsub Hci.
    destruct (extract_entry_result _ _ _ Hr) as (s' & Hs' & Hres).
    rewrite Hs in Hs'. injection Hs' as <-.
    destruct r as [it|]; [|done]. destruct Hres as (Hfish & _).
    by destruct (is_fish_false _ _ Hfish Hsub).
Qed.

Lemma extract_items_no_fish_witness :
  (∀ it sub,
     it ∈ [ {| name := "Burger"; calories := 900 |};
            {| name := "Rice"; calories := 250 |} ] →
     sub ∈ ["fish"; "salmon"; "tilapia"] → ¬ contains_ci sub (name it)) ∧
  (∃ entries rs,
     today_entries "2024-05-01" (week_of sample_days) entries ∧
     [ {| name := "Burger"; calories := 900 |};
       {| name := "Rice"; calories := 250 |} ] = omap id rs ∧
     Forall2 (λ mi r, ∀ s sub,
                name_if_truthy mi = JStr s →
                sub ∈ ["fish"; "salmon"; "tilapia"] →
                contains_ci sub (strip s) → r = None) entries rs).
Proof.
  apply (extract_items_no_fish "2024-05-01" no_float (week_of sample_days)).
  reflexivity.
Defined.




(** C10. [extract_items] does not stop at the first day record of today's
    date: the list it returns is the concatenation, in the records' order,
    of what it returns for each matching record alone; when no record
    matches it returns the empty list. *)
Theorem extract_items_all_matching_days
    today_str float_of_str week_json ds :
  iter (week_days week_json) = Ok ds →
  (∀ items,
     extract_items today_str float_of_str week_json = Ok items →
     ∃ per_day,
       Forall2 (λ d its,
                  extract_items today_str float_of_str (week_of [d]) = Ok its)
         (filter (λ d, is_today today_str d = true) ds) per_day ∧
       items = concat per_day) ∧
  (is_dict week_json → Forall is_dict ds →
   Forall (λ d, is_today today_str d = false) ds →
   extract_items today_str float_of_str week_json = Ok []).
Proof.
  intros Hds. split.
  - intros items (ds' & Hds' & Hloop)%extract_items_days.
    rewrite Hds in Hds'. injection Hds' as <-.
    apply days_loop_spec in Hloop as (per_day0 & Hpd & ->). simpl.
    destruct (day_items_filter today_str float_of_str _ _ Hpd)
      as (per_day & Hpd' & ->).
    exists per_day. split; [|done].
    eapply Forall2_impl; [exact Hpd'|]. intros d its Hd.
    by rewrite extract_items_single.
  - intros [members ->] Hdicts Hnone.
    rewrite extract_items_dict, Hds. simpl. by apply days_loop_no_match.
Qed.

Lemma extract_items_all_matching_days_witness :
  (∀ items,
     extract_items "2024-05-01" no_float (week_of sample_days) = Ok items →
     ∃ per_day,
       Forall2 (λ d its,
                  extract_items "2024-05-01" no_float (week_of [d]) = Ok its)
         (filter (λ d, is_today "2024-05-01" d = true) sample_days) per_day ∧
       items = concat per_day) ∧
  (is_dict (week_of sample_days) → Forall is_dict sample_days →
   Forall (λ d, is_today "2024-05-01" d = false) sample_days →
   extract_items "2024-05-01" no_float (week_of sample_days) = Ok []).
Proof.
  apply (extract_items_all_matching_days "2024-05-01" no_float
           (week_of sample_days) sample_days).
  reflexivity.
Defined.

End Extractor.


(** ** More on the Plan Builder *)

Module PlanFacts.
Import PlanBuilder.

(** The run of [build_plan], with the number of picks of each meal. *)
Lemma build_plan_run_bounds items :
  ∃ pb pd rest,
    candidates ∅ (items_sorted items) = pb ++ pd ++ rest ∧
    meal_filled pb ∧ meal_filled pd ∧
    (length pb <= 3)%nat ∧ (length pd <= 4)%nat ∧
    ∀ fuel,
      build_plan (7 + fuel) items = Some {| Breakfast := pb; Dinner := pd |}.
Proof.
  destruct (distinct_bounds items)
    as (d0 & d1 & d2 & d3 & d4 & d5 & d6 & d7 & rest & HD & Hb).
  destruct_and!.
  destruct (take_meal_within_3 ∅ d0 d1 d2 (d3 :: d4 :: d5 :: d6 :: d7 :: rest))
    as (b & r & Hbr & Hr); [lia|].
  rewrite <- HD in Hbr.
  destruct (take_meal_filled _ _ _ _ Hbr) as (Hcb & Hfb & _).
  assert (∃ d r', take_meal r (meal_start (used b)) = Some (d, r') ∧
                  (length r <= length r' + 4)%nat) as (d & r' & Hd & Hlen).
  { destruct Hr as [->|[->| ->]];
      edestruct (take_meal_within_4 (used b)) as (d & r' & Hd & Hr');
      [|exists d, r'; split; [exact Hd|]| |exists d, r'; split; [exact Hd|]
       | |exists d, r'; split; [exact Hd|]]; try lia;
      destruct Hr' as [->|[->|[->| ->]]]; simpl; lia. }
  destruct (take_meal_filled _ _ _ _ Hd) as (Hcd & Hfd & _).
  exists (slot b), (slot d), r'. split; [by rewrite Hcb, Hcd|].
  split; [done|]. split; [done|]. split; [|split].
  - apply (f_equal length) in Hcb. rewrite HD, length_app in Hcb.
    destruct Hr as [->|[->| ->]]; simpl in Hcb; lia.
  - apply (f_equal length) in Hcd. rewrite length_app in Hcd. lia.
  - intros fuel.
    destruct (fill_meal_take (items_sorted items) (7 + fuel) (meal_start ∅) b r)
      as [Hfill Hr0]; [done|simpl; lia|].
    destruct (fill_meal_take (items_sorted items) (7 + fuel)
                (meal_start (used b)) d r') as [Hfill' _];
      [simpl; by rewrite Hr0|simpl; lia|].
    by apply build_plan_meals.
Qed.







(** Among extracted items of the same calories the order does matter. *)
Example build_plan_order_of_ties :
  build_plan 7 [ {| name := "Wrap"; calories := 1200 |};
                 {| name := "Bowl"; calories := 1200 |} ]
  ≠ build_plan 7 [ {| name := "Bowl"; calories := 1200 |};
                   {| name := "Wrap"; calories := 1200 |} ].
Proof. by vm_compute. Qed.

End PlanFacts.

(** ** More on the Menu Fetcher *)

Module FetcherFacts.
Import Fetcher.

Lemma fetch_json_returned cands data :
  (fetch_json cands).2 = Returned data →
  ∃ pre url post,
    cands = pre ++ (url, Response 200 (Some data)) :: post ∧
    Forall (λ c, fails c.2) pre ∧
    (fetch_json cands).1 = (fst <$> pre) ++ [url].
Proof.
  induction cands as [|[url r] rest IH]; simpl; [done|].
  destruct (try_candidate r) as [data'|] eqn:Hr; simpl.
  - intros [= ->]. apply try_candidate_Some in Hr as ->.
    by exists [], url, rest.
  - destruct (fetch_json rest) as [reqs out] eqn:Hrest. simpl in *.
    intros (pre & url' & post & -> & Hpre & ->)%IH.
    exists ((url, r) :: pre), url', post. split; [done|]. split; [|done].
    constructor; [by apply try_candidate_None|done].
Qed.

(** X4. [fetch_json] requests a prefix of the candidate list, each URL once
    and in order; data it returns is the parsed body of a 200 response, that
    of the last URL requested, and every candidate before it failed. *)
Theorem fetch_json_requests_prefix (cands : list candidate) :
  (fetch_json cands).1 `prefix_of` (fst <$> cands) ∧
  ∀ data, (fetch_json cands).2 = Returned data →
    ∃ pre url post,
      cands = pre ++ (url, Response 200 (Some data)) :: post ∧
      Forall (λ c, fails c.2) pre ∧
      (fetch_json cands).1 = (fst <$> pre) ++ [url].
Proof.
  split; [|apply fetch_json_returned].
  induction cands as [|[url r] rest IH]; simpl; [done|].
  destruct (try_candidate r); simpl.
  - apply prefix_cons, prefix_nil.
  - destruct (fetch_json rest) as [reqs out]. simpl in *. by apply prefix_cons.
Qed.

End FetcherFacts.

(** ** Report Formatter *)

Module Formatter.
Import PlanBuilder.

(** The newline character. *)
Definition nl : string := String (ascii_of_nat 10) "".

(** [f"- {it['name']} — {int(it['calories'])} kcal\n"]; [int] of a calorie
    value of the model is the value. *)
Definition item_line (it : MenuItem) : string :=
  "- " +:+ name it +:+ " — " +:+ pretty (calories it) +:+ " kcal" +:+ nl.

Definition meal_heading (meal : string) : string := "## " +:+ meal +:+ nl.

Definition subtotal_line (meal : string) (subtotal : Z) : string :=
  "**" +:+ meal +:+ " subtotal: " +:+ pretty subtotal +:+ " kcal**" +:+ nl +:+ nl.

Definition total_line (total : Z) : string :=
  "**Daily Total: " +:+ pretty total +:+ " kcal**" +:+ nl.

Definition title_line (today_iso : string) : string :=
  "# Meal Plan for " +:+ today_iso +:+ nl.

(** The inner loop (source lines 105-107): a line is appended to [out] and
    the calories are added to [subtotal]. *)
Fixpoint items_loop (items : list MenuItem) (out : list string) (subtotal : Z)
  : list string * Z :=
  match items with
  | [] => (out, subtotal)
  | it :: rest =>
      items_loop rest (out ++ [item_line it]) (subtotal + calories it)
  end.

(** The outer loop over [plan.items()] (source lines 102-109). *)
Fixpoint meals_loop (meals : list (string * list MenuItem))
    (out : list string) (total : Z) : list string * Z :=
  match meals with
  | [] => (out, total)
  | (meal, items) :: rest =>
      let out1 := out ++ [meal_heading meal] in
      let '(out2, subtotal) := items_loop items out1 0 in
      let out3 := out2 ++ [subtotal_line meal subtotal] in
      meals_loop rest out3 (total + subtotal)
  end.

(** [plan.items()]: the two slots in insertion order. *)
Definition plan_items (plan : Plan) : list (string * list MenuItem) :=
  [("Breakfast", Breakfast plan); ("Dinner", Dinner plan)].

(** [format_plan] (source lines 99-111); [today_iso] is
    [datetime.date.today().isoformat()]. *)
Definition format_plan (today_iso : string) (plan : Plan) : string :=
  let out0 := [title_line today_iso] in
  let '(out, total) := meals_loop (plan_items plan) out0 0 in
  String.concat nl (out ++ [total_line total]).

(** *** The report, line by line *)



(** [occurs sub s]: [sub] is a substring of [s]. *)
Definition occurs (sub s : string) : Prop := ∃ pre post, s = pre +:+ sub +:+ post.


Lemma string_app_assoc (s1 s2 s3 : string) :
  (s1 +:+ s2) +:+ s3 = s1 +:+ (s2 +:+ s3).
Proof.
  induction s1 as [|c s1 IH]; [done|].
  change (String c ((s1 +:+ s2) +:+ s3) = String c (s1 +:+ (s2 +:+ s3))).
  by rewrite IH.
Qed.







(** The report of the plan with "Pizza" for Breakfast and nothing for
    Dinner. *)
Example format_plan_pizza :
  format_plan "2024-05-01"
    {| Breakfast := [ {| name := "Pizza"; calories := 350 |} ]; Dinner := [] |}
  = String.concat nl
      [ "# Meal Plan for 2024-05-01" +:+ nl;
        "## Breakfast" +:+ nl;
        "- Pizza — 350 kcal" +:+ nl;
        "**Breakfast subtotal: 350 kcal**" +:+ nl +:+ nl;
        "## Dinner" +:+ nl;
        "**Dinner subtotal: 0 kcal**" +:+ nl +:+ nl;
        "**Daily Total: 350 kcal**" +:+ nl ].
Proof. by vm_compute. Qed.

End Formatter.

(** ** Source Locator: the guess from the page URL *)

Module Locator.

(** [host.split('.')[0]]: the part of [host] before its first dot. *)
Fixpoint before_dot (s : string) : string :=
  match s with
  | String c s' => if Ascii.eqb c "." then "" else String c (before_dot s')
  | EmptyString => ""
  end.

(** What is left of [s] after the literal [p], when [s] starts with [p]. *)
Fixpoint strip_prefix (p s : string) : option string :=
  match p with
  | EmptyString => Some s
  | String a p' =>
      match s with
      | String b s' => if Ascii.eqb a b then strip_prefix p' s' else None
      | EmptyString => None
      end
  end.

(** The longest prefix of [s] whose characters satisfy [f]: a greedy [+] or
    [*] on a character class that nothing after it can take back. *)
Fixpoint take_while (f : ascii → bool) (s : string) : string :=
  match s with
  | String c s' => if f c then String c (take_while f s') else ""
  | EmptyString => ""
  end.

(** The class [[^/?#]]. *)
Definition slug_char (c : ascii) : bool :=
  negb (Ascii.eqb c "/" || Ascii.eqb c "?" || Ascii.eqb c "#").

(** A match of [/menu/([^/?#]+)] at the start of [s]: its group 1. *)
Definition slug_at (s : string) : option string :=
  match strip_prefix "/menu/" s with
  | Some rest =>
      let g := take_while slug_char rest in
      if String.eqb g "" then None else Some g
  | None => None
  end.

(** [re.search(r'/menu/([^/?#]+)', path)]: group 1 of the leftmost match. *)
Fixpoint search_slug (path : string) : option string :=
  match slug_at path with
  | Some g => Some g
  | None =>
      match path with
      | String _ rest => search_slug rest
      | EmptyString => None
      end
  end.

(** The f-string of source line 46. *)
Definition api_url (district school_slug meal : string) (y mn d : Z) : string :=
  "https://" +:+ district +:+ ".api.nutrislice.com/menu/api/weeks/school/"
  +:+ school_slug +:+ "/menu-type/" +:+ meal +:+ "/" +:+ pretty y +:+ "/"
  +:+ pretty mn +:+ "/" +:+ pretty d +:+ "/?format=json".

(** [guess_api_by_slug] (source lines 35-48) on the parts [urlparse] gives
    of the page URL: [hostname] ([None] when there is none) and [path];
    [y], [mn], [d] are today's year, month and day. *)
Definition guess_api_by_slug (hostname : option string) (path : string)
    (y mn d : Z) : list string :=
  match hostname with
  | None => []
  | Some host =>
      if String.eqb host "" then []
      else
        let district := before_dot host in
        match search_slug path with
        | None => []
        | Some school_slug =>
            (λ meal, api_url district school_slug meal y mn d)
              <$> ["breakfast"; "lunch"; "dinner"]
        end
  end.

(** *** Words for the statements *)

Fixpoint all_chars (f : ascii → bool) (s : string) : Prop :=
  match s with
  | String c s' => f c = true ∧ all_chars f s'
  | EmptyString => True
  end.

(** [s] is empty or starts with a character outside [f]. *)
Definition stops (f : ascii → bool) (s : string) : Prop :=
  match s with
  | String c _ => f c = false
  | EmptyString => True
  end.

(** The pattern [/menu/([^/?#]+)] matches in [path] at offset [n]. *)
Definition slug_match_at (path : string) (n : nat) : Prop :=
  ∃ pre c rest,
    path = pre +:+ "/menu/" +:+ String c rest ∧ slug_char c = true ∧
    String.length pre = n.

(** The class of the characters other than the dot. *)
Definition not_dot (c : ascii) : bool := negb (Ascii.eqb c ".").

(** *** Facts about the string functions *)

Lemma strip_prefix_Some p s rest :
  strip_prefix p s = Some rest ↔ s = p +:+ rest.
Proof.
  revert s. induction p as [|a p IH]; intros s; simpl.
  - split; [by intros [= ->]|by intros ->].
  - destruct s as [|b s].
    + split; [done|]. by intros [=].
    + destruct (Ascii.eqb a b) eqn:Hab.
      * apply Ascii.eqb_eq in Hab as ->. rewrite IH.
        split; [by intros ->|]. by intros [= ->].
      * apply Ascii.eqb_neq in Hab. split; [done|]. intros [= Heq _]. by subst.
Qed.

Lemma take_while_split f s :
  ∃ post, s = take_while f s +:+ post ∧ stops f post.
Proof.
  induction s as [|c s (post & IH & Hpost)]; simpl.
  - by exists "".
  - destruct (f c) eqn:Hc.
    + exists post. split; [|done].
      change (String c s = String c (take_while f s +:+ post)). by rewrite <- IH.
    + by exists (String c s).
Qed.

Lemma take_while_all f s : all_chars f (take_while f s).
Proof.
  induction s as [|c s IH]; simpl; [done|].
  destruct (f c) eqn:Hc; simpl; [by split|done].
Qed.

Lemma take_while_app f g post :
  all_chars f g → stops f post → take_while f (g +:+ post) = g.
Proof.
  induction g as [|c g IH]; intros Hg Hpost.
  - change (take_while f post = ""). destruct post as [|c post]; [done|].
    simpl in *. by rewrite Hpost.
  - destruct Hg as [Hc Hg].
    change (take_while f (String c (g +:+ post)) = String c g).
    simpl. rewrite Hc. f_equal. by apply IH.
Qed.

Lemma before_dot_take_while s : before_dot s = take_while not_dot s.
Proof.
  induction s as [|c s IH]; simpl; [done|]. unfold not_dot at 1.
  destruct (Ascii.eqb c "."); simpl; [done|]. by rewrite IH.
Qed.

Lemma slug_at_Some s g :
  slug_at s = Some g ↔
  g ≠ "" ∧ all_chars slug_char g ∧
  ∃ post, s = "/menu/" +:+ g +:+ post ∧ stops slug_char post.
Proof.
  unfold slug_at. split.
  - destruct (strip_prefix "/menu/" s) as [rest|] eqn:Hrest; [|done].
    apply strip_prefix_Some in Hrest as ->.
    destruct (String.eqb (take_while slug_char rest) "") eqn:Hg; [done|].
    intros [= <-]. apply String.eqb_neq in Hg. split; [done|].
    split; [apply take_while_all|].
    destruct (take_while_split slug_char rest) as (post & Hsplit & Hpost).
    exists post. split; [|done]. by rewrite <- Hsplit.
  - intros (Hne & Hall & post & -> & Hpost).
    assert (strip_prefix "/menu/" ("/menu/" +:+ g +:+ post) = Some (g +:+ post))
      as -> by by apply strip_prefix_Some.
    simpl. rewrite take_while_app by done.
    apply String.eqb_neq in Hne. by rewrite Hne.
Qed.

Lemma slug_at_match s c rest :
  s = "/menu/" +:+ String c rest → slug_char c = true → is_Some (slug_at s).
Proof.
  intros -> Hc. unfold slug_at.
  assert (strip_prefix "/menu/" ("/menu/" +:+ String c rest)
          = Some (String c rest)) as -> by by apply strip_prefix_Some.
  simpl. rewrite Hc. by eexists.
Qed.

Lemma slug_match_at_0 s :
  slug_match_at s 0 → is_Some (slug_at s).
Proof.
  intros (pre & c & rest & -> & Hc & Hlen).
  destruct pre; [|done]. by eapply slug_at_match.
Qed.

Lemma slug_match_at_S a s n :
  slug_match_at (String a s) (S n) → slug_match_at s n.
Proof.
  intros (pre & c & rest & Heq & Hc & Hlen).
  destruct pre as [|b pre]; [done|]. simpl in Hlen.
  change (String a s = String b (pre +:+ "/menu/" +:+ String c rest)) in Heq.
  injection Heq as _ ->. exists pre, c, rest. split; [done|]. split; [done|lia].
Qed.

(** X7. The school slug is group 1 of the leftmost match of the pattern in
    the path: a non-empty run without [/], [?] and [#] that follows
    "/menu/" and ends at the end of the path or before one of the three
    characters; there is no slug exactly when the pattern matches nowhere. *)
Theorem search_slug_leftmost (path : string) :
  match search_slug path with
  | Some school_slug =>
      ∃ pre post,
        path = pre +:+ "/menu/" +:+ school_slug +:+ post ∧
        school_slug ≠ "" ∧ all_chars slug_char school_slug ∧
        stops slug_char post ∧
        ∀ n, slug_match_at path n → (String.length pre <= n)%nat
  | None => ∀ n, ¬ slug_match_at path n
  end.
Proof.
  induction path as [|a path IH].
  - simpl. intros n (pre & c & rest & Heq & _). by destruct pre.
  - cbn [search_slug]. destruct (slug_at (String a path)) as [g|] eqn:Hat.
    + apply slug_at_Some in Hat as (Hne & Hall & post & Heq & Hpost).
      exists "", post. split; [done|]. repeat split; try done. simpl. lia.
    + destruct (search_slug path) as [g|].
      * destruct IH as (pre & post & -> & Hne & Hall & Hpost & Hleft).
        exists (String a pre), post. split; [done|]. repeat split; try done.
        intros [|n] Hn.
        { apply slug_match_at_0 in Hn as [? Hn]. congruence. }
        apply slug_match_at_S, Hleft in Hn. simpl. lia.
      * intros [|n] Hn.
        { apply slug_match_at_0 in Hn as [? Hn]. congruence. }
        by apply slug_match_at_S, IH in Hn.
Qed.

(** X8. [guess_api_by_slug] returns no URL when the page URL has no host
    name or no slug, and else exactly three URLs, for breakfast, lunch and
    dinner in this order, which differ in the meal type only; the district
    in them is the host name up to its first dot. *)
Theorem guess_api_by_slug_urls hostname path y mn d :
  (guess_api_by_slug hostname path y mn d = [] ↔
   hostname = None ∨ hostname = Some "" ∨ search_slug path = None) ∧
  ∀ host school_slug,
    hostname = Some host → host ≠ "" → search_slug path = Some school_slug →
    ∃ district rest,
      host = district +:+ rest ∧ all_chars not_dot district ∧
      stops not_dot rest ∧
      guess_api_by_slug hostname path y mn d
      = [ api_url district school_slug "breakfast" y mn d;
          api_url district school_slug "lunch" y mn d;
          api_url district school_slug "dinner" y mn d ].
Proof.
  split.
  - unfold guess_api_by_slug. destruct hostname as [host|]; [|naive_solver].
    destruct (String.eqb host "") eqn:Hh.
    { apply String.eqb_eq in Hh as ->. naive_solver. }
    apply String.eqb_neq in Hh.
    destruct (search_slug path); simpl; naive_solver.
  - intros host slug -> Hne Hslug. exists (before_dot host).
    destruct (take_while_split not_dot host) as (rest & Hsplit & Hrest).
    exists rest. rewrite before_dot_take_while. split; [done|].
    split; [apply take_while_all|]. split; [done|].
    unfold guess_api_by_slug. apply String.eqb_neq in Hne.
    by rewrite Hne, Hslug, before_dot_take_while.
Qed.

End Locator.

(** ** Source Locator: the scan of the page *)

Module Scanner.
Import Locator.

(** The class [[A-Za-z0-9\.-]]. *)
Definition host_char (c : ascii) : bool :=
  let n := nat_of_ascii c in
  ((65 <=? n) && (n <=? 90) || (97 <=? n) && (n <=? 122)
   || (48 <=? n) && (n <=? 57) || (n =? 46) || (n =? 45))%nat.

(** The last class of the pattern: every character but the double quote
    (code 34) and the single quote (code 39). *)
Definition url_char (c : ascii) : bool :=
  let n := nat_of_ascii c in negb ((n =? 34) || (n =? 39))%nat.

Definition api_suffix : string := ".api.nutrislice.com".

Definition weeks_path : string := "/menu/api/weeks/".

(** What is left of [s] after [take_while f s]. *)
Fixpoint drop_while (f : ascii → bool) (s : string) : string :=
  match s with
  | String c s' => if f c then drop_while f s' else s
  | EmptyString => ""
  end.

(** [r] is a non-empty string followed by [api_suffix]. *)
Fixpoint has_host_suffix (r : string) : bool :=
  match r with
  | String _ r' => String.eqb r' api_suffix || has_host_suffix r'
  | EmptyString => false
  end.

(** The match of the pattern of source line 33,
    [https?://[A-Za-z0-9\.-]+\.api\.nutrislice\.com/menu/api/weeks/] followed
    by one or more characters that are not quotes, at the start of [s], if
    there is one.  After the four letters of the scheme an [s] is taken when
    it is there.  The host class takes the longest run [r] of its characters
    and gives back just the 19 characters of [api_suffix]: these are in the
    class, and the slash that has to follow them is not, so the literal can
    only end where the run ends.  The last class takes the longest run. *)
Definition match_at (s : string) : option string :=
  match strip_prefix "http" s with
  | None => None
  | Some rest0 =>
      let '(scheme, rest1) :=
        match rest0 with
        | String c t => if Ascii.eqb c "s" then ("https", t) else ("http", rest0)
        | EmptyString => ("http", rest0)
        end in
      match strip_prefix "://" rest1 with
      | None => None
      | Some rest =>
          let r := take_while host_char rest in
          if has_host_suffix r then
            match strip_prefix weeks_path (drop_while host_char rest) with
            | None => None
            | Some rest2 =>
                let t := take_while url_char rest2 in
                if String.eqb t "" then None
                else Some (scheme +:+ "://" +:+ r +:+ weeks_path +:+ t)
            end
          else None
      end
  end.

(** [s] without its first [n] characters. *)
Fixpoint string_drop (n : nat) (s : string) : string :=
  match n, s with
  | S n', String _ s' => string_drop n' s'
  | _, _ => s
  end.

(** [re.findall] of the pattern: the matches from left to right, each search
    starting where the match before ended.  Every step moves on by at least
    one character, so a fuel of the length of the text is never used up (see
    [find_go_fuel]). *)
Fixpoint find_go (fuel : nat) (s : string) : list string :=
  match fuel with
  | O => []
  | S fuel' =>
      match match_at s with
      | Some m => m :: find_go fuel' (string_drop (String.length m) s)
      | None =>
          match s with
          | String _ s' => find_go fuel' s'
          | EmptyString => []
          end
      end
  end.

(** [re.findall(pattern, html)] (source line 33). *)
Definition findall (html : string) : list string :=
  find_go (String.length html) html.

(** *** Words for the statements *)

(** The language of the pattern. *)
Definition api_url_text (u : string) : Prop :=
  ∃ scheme host tail,
    u = scheme +:+ "://" +:+ host +:+ api_suffix +:+ weeks_path +:+ tail ∧
    (scheme = "http" ∨ scheme = "https") ∧
    host ≠ "" ∧ all_chars host_char host ∧
    tail ≠ "" ∧ all_chars url_char tail.

(** [weave gaps us]: the texts [us] with the texts [gaps] around and between
    them. *)
Fixpoint weave (gaps us : list string) : string :=
  match gaps, us with
  | g :: gaps', u :: us' => g +:+ u +:+ weave gaps' us'
  | g :: _, [] => g
  | [], _ => ""
  end.

(** *** Facts about the string functions *)

Lemma app_assoc_s (s1 s2 s3 : string) : (s1 +:+ s2) +:+ s3 = s1 +:+ (s2 +:+ s3).
Proof. apply Formatter.string_app_assoc. Qed.

Lemma length_app_s (s1 s2 : string) :
  String.length (s1 +:+ s2) = (String.length s1 + String.length s2)%nat.
Proof.
  induction s1 as [|c s1 IH]; [done|].
  change (S (String.length (s1 +:+ s2))
          = S (String.length s1 + String.length s2)). by rewrite IH.
Qed.

Lemma string_drop_app (s1 s2 : string) :
  string_drop (String.length s1) (s1 +:+ s2) = s2.
Proof.
  induction s1 as [|c s1 IH]; [by destruct s2|].
  change (string_drop (String.length s1) (s1 +:+ s2) = s2). exact IH.
Qed.

Lemma all_chars_app f (s1 s2 : string) :
  all_chars f (s1 +:+ s2) ↔ all_chars f s1 ∧ all_chars f s2.
Proof.
  induction s1 as [|c s1 IH].
  - change (all_chars f s2 ↔ True ∧ all_chars f s2). tauto.
  - change (f c = true ∧ all_chars f (s1 +:+ s2)
            ↔ (f c = true ∧ all_chars f s1) ∧ all_chars f s2).
    rewrite IH. tauto.
Qed.

Lemma take_drop_while f s : s = take_while f s +:+ drop_while f s.
Proof.
  induction s as [|c s IH]; simpl; [done|].
  destruct (f c); [|done].
  change (String c s = String c (take_while f s +:+ drop_while f s)).
  by rewrite <- IH.
Qed.

Lemma drop_while_stops f s : stops f (drop_while f s).
Proof.
  induction s as [|c s IH]; simpl; [done|]. by destruct (f c) eqn:Hc.
Qed.

Lemma drop_while_app f g post :
  all_chars f g → stops f post → drop_while f (g +:+ post) = post.
Proof.
  induction g as [|c g IH]; intros Hg Hpost.
  - change (drop_while f post = post). destruct post as [|c post]; [done|].
    simpl in *. by rewrite Hpost.
  - destruct Hg as [Hc Hg].
    change (drop_while f (String c (g +:+ post)) = post).
    simpl. rewrite Hc. by apply IH.
Qed.

Lemma has_host_suffix_spec r :
  has_host_suffix r = true ↔ ∃ h, h ≠ "" ∧ r = h +:+ api_suffix.
Proof.
  induction r as [|c r IH]; simpl.
  - split; [done|]. intros (h & Hh & Heq). by destruct h.
  - rewrite orb_true_iff, IH, String.eqb_eq. split.
    + intros [->|(h & Hh & ->)].
      * by exists (String c "").
      * by exists (String c h).
    + intros ([|c' h] & Hh & Heq); [done|].
      change (String c r = String c' (h +:+ api_suffix)) in Heq.
      injection Heq as -> ->. destruct h as [|c'' h]; [by left|].
      right. by exists (String c'' h).
Qed.

Lemma all_chars_api_suffix : all_chars host_char api_suffix.
Proof. by vm_compute. Qed.

(** *** The match at one place *)

Lemma match_at_sound s u :
  match_at s = Some u →
  api_url_text u ∧ ∃ post, s = u +:+ post ∧ stops url_char post.
Proof.
  unfold match_at.
  destruct (strip_prefix "http" s) as [rest0|] eqn:H0; [|done].
  apply strip_prefix_Some in H0 as ->.
  assert (∃ scheme rest1,
            (scheme = "http" ∨ scheme = "https") ∧
            "http" +:+ rest0 = scheme +:+ rest1 ∧
            match rest0 with
            | String c t =>
                if Ascii.eqb c "s" then ("https", t) else ("http", rest0)
            | EmptyString => ("http", rest0)
            end = (scheme, rest1)) as (scheme & rest1 & Hscheme & -> & ->).
  { destruct rest0 as [|c t]; [by exists "http", ""; auto|].
    destruct (Ascii.eqb c "s") eqn:Hc.
    - apply Ascii.eqb_eq in Hc as ->. exists "https", t. auto.
    - exists "http", (String c t). auto. }
  destruct (strip_prefix "://" rest1) as [rest|] eqn:H1; [|done].
  apply strip_prefix_Some in H1 as ->.
  destruct (has_host_suffix (take_while host_char rest)) eqn:Hr; [|done].
  apply has_host_suffix_spec in Hr as (h & Hh & Hr).
  destruct (strip_prefix weeks_path (drop_while host_char rest))
    as [rest2|] eqn:H2; [|done].
  apply strip_prefix_Some in H2.
  destruct (String.eqb (take_while url_char rest2) "") eqn:Ht; [done|].
  apply String.eqb_neq in Ht. intros [= <-].
  pose proof (take_while_all host_char rest) as Hall.
  rewrite Hr in Hall |- *. apply all_chars_app in Hall as [Hall _]. split.
  - exists scheme, h, (take_while url_char rest2).
    rewrite !app_assoc_s. repeat split; try done. apply take_while_all.
  - exists (drop_while url_char rest2). split; [|apply drop_while_stops].
    rewrite !app_assoc_s, <- take_drop_while, <- H2.
    rewrite <- (app_assoc_s h), <- Hr. by rewrite <- take_drop_while.
Qed.

Lemma match_at_complete scheme host tail post :
  (scheme = "http" ∨ scheme = "https") →
  host ≠ "" → all_chars host_char host →
  tail ≠ "" → all_chars url_char tail → stops url_char post →
  match_at (scheme +:+ "://" +:+ host +:+ api_suffix +:+ weeks_path
            +:+ tail +:+ post)
  = Some (scheme +:+ "://" +:+ host +:+ api_suffix +:+ weeks_path +:+ tail).
Proof.
  intros Hscheme Hhost Hall Htail Hallt Hpost.
  set (rest := host +:+ api_suffix +:+ weeks_path +:+ tail +:+ post).
  assert (take_while host_char rest = host +:+ api_suffix) as Htw.
  { unfold rest. rewrite <- app_assoc_s. apply take_while_app; [|done].
    apply all_chars_app. split; [done|apply all_chars_api_suffix]. }
  assert (drop_while host_char rest = weeks_path +:+ tail +:+ post) as Hdw.
  { unfold rest. rewrite <- app_assoc_s. apply drop_while_app; [|done].
    apply all_chars_app. split; [done|apply all_chars_api_suffix]. }
  assert (match_at (scheme +:+ "://" +:+ rest)
          = match strip_prefix "://" ("://" +:+ rest) with
            | Some rest' =>
                let r := take_while host_char rest' in
                if has_host_suffix r then
                  match strip_prefix weeks_path (drop_while host_char rest') with
                  | None => None
                  | Some rest2 =>
                      let t := take_while url_char rest2 in
                      if String.eqb t "" then None
                      else Some (scheme +:+ "://" +:+ r +:+ weeks_path +:+ t)
                  end
                else None
            | None => None
            end) as ->.
  { by destruct Hscheme as [-> | ->]. }
  assert (strip_prefix "://" ("://" +:+ rest) = Some rest) as ->
    by by apply strip_prefix_Some.
  cbn zeta. rewrite Htw, Hdw.
  assert (has_host_suffix (host +:+ api_suffix) = true) as ->.
  { apply has_host_suffix_spec. by exists host. }
  assert (strip_prefix weeks_path (weeks_path +:+ tail +:+ post)
          = Some (tail +:+ post)) as -> by by apply strip_prefix_Some.
  rewrite take_while_app by done.
  apply String.eqb_neq in Htail. rewrite Htail.
  by rewrite !app_assoc_s.
Qed.

(** *** The list of the matches *)

Lemma match_at_split s m :
  match_at s = Some m →
  ∃ c m' post, m = String c m' ∧ s = m +:+ post ∧
               string_drop (String.length m) s = post.
Proof.
  intros Hm. pose proof Hm as Hs.
  apply match_at_sound in Hs as [(scheme & host & tail & -> & Hsch & _) (post & -> & _)].
  assert (∃ c m', scheme +:+ "://" +:+ host +:+ api_suffix +:+ weeks_path +:+ tail
                  = String c m') as (c & m' & Heq).
  { destruct Hsch as [-> | ->]; by eexists _, _. }
  exists c, m', post. split; [done|]. split; [done|]. apply string_drop_app.
Qed.

(** The fuel does not matter once it covers the length of the text. *)
Lemma find_go_fuel fuel fuel' s :
  (String.length s <= fuel)%nat → (String.length s <= fuel')%nat →
  find_go fuel s = find_go fuel' s.
Proof.
  revert fuel' s. induction fuel as [|fuel IH]; intros fuel' s Hf Hf'.
  { destruct s; [|simpl in Hf; lia]. by destruct fuel'. }
  destruct fuel' as [|fuel'].
  { destruct s; [done|simpl in Hf'; lia]. }
  simpl. destruct (match_at s) as [m|] eqn:Hm.
  - destruct (match_at_split _ _ Hm) as (c & m' & post & -> & -> & ->).
    rewrite length_app_s in Hf, Hf'. simpl in Hf, Hf'.
    f_equal. apply IH; lia.
  - destruct s as [|c s]; [done|]. simpl in Hf, Hf'. apply IH; lia.
Qed.

Lemma find_go_weave fuel s :
  (String.length s <= fuel)%nat →
  ∃ gaps, length gaps = S (length (find_go fuel s)) ∧
          s = weave gaps (find_go fuel s).
Proof.
  revert s. induction fuel as [|fuel IH]; intros s Hf.
  { destruct s; [|simpl in Hf; lia]. by exists [""]. }
  simpl. destruct (match_at s) as [m|] eqn:Hm.
  - destruct (match_at_split _ _ Hm) as (c & m' & post & Hc & -> & ->).
    destruct (IH post) as (gaps & Hlen & Hw).
    { rewrite length_app_s, Hc in Hf. simpl in Hf. lia. }
    exists ("" :: gaps). split; [simpl; lia|].
    change (m +:+ post = m +:+ weave gaps (find_go fuel post)). by rewrite <- Hw.
  - destruct s as [|c s]; [by exists [""]|].
    destruct (IH s) as (gaps & Hlen & Hw); [simpl in Hf; lia|].
    destruct gaps as [|g gaps]; [done|]. exists (String c g :: gaps).
    split; [done|]. rewrite Hw at 1.
    by destruct (find_go fuel s).
Qed.

Lemma find_go_sound fuel s u :
  u ∈ find_go fuel s → api_url_text u ∧ Formatter.occurs u s.
Proof.
  revert s. induction fuel as [|fuel IH]; intros s; simpl.
  { by intros ?%elem_of_nil. }
  destruct (match_at s) as [m|] eqn:Hm.
  - destruct (match_at_split _ _ Hm) as (c & m' & post & Hc & -> & ->).
    intros [->|Hu]%elem_of_cons.
    + split; [by apply match_at_sound in Hm as [? _]|]. by exists "", post.
    + apply IH in Hu as [Hu (pre & post' & ->)]. split; [done|].
      exists (m +:+ pre), post'. by rewrite !app_assoc_s.
  - destruct s as [|c s]; [by intros ?%elem_of_nil|].
    intros [Hu (pre & post & ->)]%IH. split; [done|].
    by exists (String c pre), post.
Qed.

Lemma match_at_occurrence u post :
  api_url_text u → is_Some (match_at (u +:+ post)).
Proof.
  intros (scheme & host & tail & -> & Hsch & Hh & Hall & Ht & Hallt).
  exists (scheme +:+ "://" +:+ host +:+ api_suffix +:+ weeks_path
          +:+ (tail +:+ take_while url_char post)).
  rewrite (take_drop_while url_char post) at 1. rewrite !app_assoc_s.
  rewrite <- (app_assoc_s tail).
  apply match_at_complete; try done.
  - by destruct tail.
  - apply all_chars_app. split; [done|apply take_while_all].
  - apply drop_while_stops.
Qed.

Lemma find_go_occurrence fuel pre s :
  (String.length (pre +:+ s) <= fuel)%nat → is_Some (match_at s) →
  find_go fuel (pre +:+ s) ≠ [].
Proof.
  revert fuel. induction pre as [|c pre IH]; intros fuel Hf Hs.
  - change (find_go fuel s ≠ []). destruct Hs as [m Hm].
    destruct (match_at_split _ _ Hm) as (c & m' & post & -> & -> & _).
    destruct fuel; [simpl in Hf; lia|]. simpl. by rewrite Hm.
  - change (String.length (String c (pre +:+ s)) <= fuel)%nat in Hf.
    change (find_go fuel (String c (pre +:+ s)) ≠ []).
    destruct fuel; [simpl in Hf; lia|]. simpl.
    destruct (match_at (String c (pre +:+ s))); [done|].
    apply IH; [simpl in Hf; lia|done].
Qed.

(** X9. Every text [find_api_urls] returns occurs in the page and has the
    form of the pattern: the scheme http or https, a non-empty host of
    letters, digits, dots and hyphens, ".api.nutrislice.com/menu/api/weeks/"
    and a non-empty rest without quote characters. *)
Theorem findall_sound (html u : string) :
  u ∈ findall html → api_url_text u ∧ Formatter.occurs u html.
Proof. apply find_go_sound. Qed.

(** X10. The matches are found from left to right and do not overlap: the
    page is the matches, in the order returned, with texts around and
    between them. *)
Theorem findall_weave (html : string) :
  ∃ gaps, length gaps = S (length (findall html)) ∧
          html = weave gaps (findall html).
Proof. by apply find_go_weave. Qed.

(** X11. [find_api_urls] returns no URL exactly when no text of the form
    of the pattern occurs in the page. *)
Theorem findall_nil_iff (html : string) :
  findall html = [] ↔ ¬ ∃ u, api_url_text u ∧ Formatter.occurs u html.
Proof.
  split.
  - intros Hnil (u & Hu & pre & post & ->).
    apply (find_go_occurrence (String.length (pre +:+ u +:+ post)) pre
             (u +:+ post)); [done|by apply match_at_occurrence|done].
  - intros Hnone. destruct (findall html) as [|u us] eqn:Hf; [done|].
    destruct Hnone. exists u. apply (find_go_sound (String.length html) html).
    fold (findall html). rewrite Hf. left.
Qed.

Lemma findall_sound_witness :
  api_url_text "https://demo.api.nutrislice.com/menu/api/weeks/school/a/" ∧
  Formatter.occurs "https://demo.api.nutrislice.com/menu/api/weeks/school/a/"
    "<a href='https://demo.api.nutrislice.com/menu/api/weeks/school/a/'>menu</a>".
Proof.
  apply (findall_sound
    "<a href='https://demo.api.nutrislice.com/menu/api/weeks/school/a/'>menu</a>").
  vm_compute. left.
Defined.

End Scanner.

(** ** More on the Item Extractor: when it raises *)

Module ExtractorFacts.
Import Extractor.









Lemma bind_ret {A B} (a : A) (f : A → res B) : Ok a ≫= f = f a.
Proof. done. Qed.

Lemma bind_raise {A B} (e : exn) (f : A → res B) : Raise e ≫= f = Raise e.
Proof. done. Qed.







Section facts.
Variable today_str : string.
Variable float_of_str : string → option Z.

#[local] Abbreviation float := (float float_of_str).
#[local] Abbreviation extract_entry := (extract_entry float_of_str).
#[local] Abbreviation menu_items_loop := (menu_items_loop float_of_str).
#[local] Abbreviation days_loop := (days_loop today_str float_of_str).
#[local] Abbreviation extract_items := (extract_items today_str float_of_str).
#[local] Abbreviation day_items := (day_items today_str float_of_str).











End facts.




End ExtractorFacts.

(** ** The pipeline *)

Module Pipeline.

(** Today's date as the program reads it: the numbers of
    [datetime.date.today()], its [strftime("%Y-%m-%d")] and its
    [isoformat()]. *)
Record clock := {
  year : Z;
  month : Z;
  day : Z;
  today_str : string;
  today_iso : string
}.

(** What a run of [main] meets outside the program. *)
Record world := {
  (** [requests.get(page_url, timeout=15).text]; [None] when the call
      raises. *)
  page : option string;
  (** [urlparse(page_url).hostname] and [.path]. *)
  hostname : option string;
  path : string;
  (** What the request to the candidate of index [i], of URL [url], does. *)
  respond : nat → string → Fetcher.response;
  (** Python's [float] on a [str]. *)
  float_of_str : string → option Z;
  now : clock
}.

(** How a run ends: with an exception out of [find_api_urls], [fetch_json]
    or [extract_items], or with the report written to the file [outname]
    and printed. *)
Inductive result :=
  | PageError
  | FetchError (msg : string)
  | ExtractError (e : Extractor.exn)
  | Written (outname md : string).

(** [find_api_urls(args.page_url) or guess_api_by_slug(args.page_url)] *)
Definition candidate_urls (w : world) (html : string) : list string :=
  let found := Scanner.findall html in
  if bool_decide (found = []) then
    Locator.guess_api_by_slug (hostname w) (path w)
      (year (now w)) (month (now w)) (day (now w))
  else found.

(** The candidates as [fetch_json] meets them: each URL with what the
    request to it does. *)
Definition candidates (w : world) (html : string) : list Fetcher.candidate :=
  imap (λ i url, (url, respond w i url)) (candidate_urls w html).

(** [main] (source lines 113-125); [fuel] is the fuel of [build_plan]. *)
Definition main (fuel : nat) (w : world) : option result :=
  match page w with
  | None => Some PageError
  | Some html =>
      match Fetcher.fetch_json (candidates w html) with
      | (_, Fetcher.RuntimeError msg) => Some (FetchError msg)
      | (_, Fetcher.Returned data) =>
          match Extractor.extract_items (today_str (now w)) (float_of_str w)
                  data with
          | Extractor.Raise e => Some (ExtractError e)
          | Extractor.Ok items =>
              plan ← PlanBuilder.build_plan fuel items;
              Some (Written ("mealplan_" +:+ today_iso (now w) +:+ ".md")
                      (Formatter.format_plan (today_iso (now w)) plan))
          end
      end
  end.

(** The URLs of the menu API a run requests, in order. *)
Definition requests (w : world) : list string :=
  match page w with
  | None => []
  | Some html => (Fetcher.fetch_json (candidates w html)).1
  end.

(** *** Words for the statements *)

(** The page holds a text of the form of the pattern of [find_api_urls]. *)
Definition page_has_url (html : string) : Prop :=
  ∃ u, Scanner.api_url_text u ∧ Formatter.occurs u html.

(** The plan made of the catalog alone. *)
Definition catalog_plan : Plan :=
  {| Breakfast := [ {| name := "Deli sandwich"; calories := 600 |};
                    {| name := "Pasta with sauce"; calories := 500 |};
                    {| name := "Chicken tenders"; calories := 400 |} ];
     Dinner := [ {| name := "Pizza"; calories := 350 |};
                 {| name := "Salad bar"; calories := 300 |};
                 {| name := "French fries"; calories := 300 |};
                 {| name := "Grilled chicken"; calories := 250 |} ] |}.

(** *** Sample runs *)

Definition sample_page : string :=
  "<a href='https://demo.api.nutrislice.com/menu/api/weeks/school/a/'>menu</a>".

Definition sample_clock : clock :=
  {| year := 2024; month := 5; day := 3;
     today_str := "2024-05-03"; today_iso := "2024-05-03" |}.

(** Every request is answered with the sample week, which has no day of
    the date of [sample_clock]. *)
Definition sample_world : world :=
  {| page := Some sample_page;
     hostname := Some "demo.nutrislice.com";
     path := "/menu/a";
     respond := λ _ _, Fetcher.Response 200 (Some (Extractor.week_of Extractor.sample_days));
     float_of_str := Extractor.no_float;
     now := sample_clock |}.

(** A page without API URL, and no request is answered. *)
Definition offline_world : world :=
  {| page := Some "<html></html>";
     hostname := Some "demo.nutrislice.com";
     path := "/menu/a";
     respond := λ _ _, Fetcher.NetworkError;
     float_of_str := Extractor.no_float;
     now := sample_clock |}.

(** *** Facts *)

Lemma fst_imap {B} (f : nat → string → B) (l : list string) :
  fst <$> imap (λ i u, (u, f i u)) l = l.
Proof.
  revert f. induction l as [|u l IH]; intros f; [done|].
  cbn [imap fmap list_fmap]. f_equal. apply (IH (f ∘ S)).
Qed.

Lemma fetch_json_prefix cands :
  (Fetcher.fetch_json cands).1 `prefix_of` (fst <$> cands).
Proof.
  induction cands as [|[url r] rest IH]; simpl; [done|].
  destruct (Fetcher.try_candidate r); simpl.
  - apply prefix_cons, prefix_nil.
  - destruct (Fetcher.fetch_json rest) as [reqs out]. simpl in *.
    by apply prefix_cons.
Qed.

Lemma findall_nil_page html : Scanner.findall html = [] ↔ ¬ page_has_url html.
Proof.
  split.
  - intros Hnil (u & Hu & pre & post & ->).
    apply (Scanner.find_go_occurrence
             (String.length (pre +:+ u +:+ post)) pre (u +:+ post));
      [done|by apply Scanner.match_at_occurrence|done].
  - intros Hnone. destruct (Scanner.findall html) as [|u us] eqn:Hf; [done|].
    destruct Hnone. exists u.
    apply (Scanner.find_go_sound (String.length html) html).
    fold (Scanner.findall html). rewrite Hf. left.
Qed.


Lemma fetch_json_msg cands msg :
  (Fetcher.fetch_json cands).2 = Fetcher.RuntimeError msg →
  msg = Fetcher.no_source_msg.
Proof.
  induction cands as [|[url r] rest IH]; simpl; [by intros [= <-]|].
  destruct (Fetcher.try_candidate r); [done|].
  by destruct (Fetcher.fetch_json rest).
Qed.


(** X15. The guess from the page URL is a fallback only: when the page
    holds an API URL, the run requests URLs found in the page, in their
    order there, and no other; when it holds none, it requests the guessed
    URLs in their order, and no other. *)
Theorem main_requests (w : world) (html : string) :
  page w = Some html →
  (page_has_url html → requests w `prefix_of` Scanner.findall html) ∧
  (¬ page_has_url html →
   requests w `prefix_of`
     Locator.guess_api_by_slug (hostname w) (path w)
       (year (now w)) (month (now w)) (day (now w))).
Proof.
  intros Hpage. unfold requests. rewrite Hpage.
  pose proof (fetch_json_prefix (candidates w html)) as Hpre.
  unfold candidates in Hpre at 2. rewrite fst_imap in Hpre.
  unfold candidate_urls in Hpre.
  split; intros Hhas.
  - case_bool_decide as Hnil; [|done]. by apply findall_nil_page in Hnil.
  - apply findall_nil_page in Hhas. by rewrite bool_decide_eq_true_2 in Hpre.
Qed.

Lemma main_requests_witness :
  (page_has_url sample_page →
   requests sample_world `prefix_of` Scanner.findall sample_page) ∧
  (¬ page_has_url sample_page →
   requests sample_world `prefix_of`
     Locator.guess_api_by_slug (hostname sample_world) (path sample_world)
       (year (now sample_world)) (month (now sample_world))
       (day (now sample_world))).
Proof.
  apply (main_requests sample_world sample_page). reflexivity.
Defined.

(** X16. A run ends with the error of [fetch_json] when every candidate
    fails, the case of no candidate included, and only then; the message is
    the one of source line 57, and no report is written. *)
Theorem main_fetch_error (fuel : nat) (w : world) (html : string) :
  page w = Some html →
  (Forall (λ c, Fetcher.fails c.2) (candidates w html) →
   main fuel w = Some (FetchError Fetcher.no_source_msg)) ∧
  (∀ msg, main fuel w = Some (FetchError msg) →
     msg = Fetcher.no_source_msg ∧
     Forall (λ c, Fetcher.fails c.2) (candidates w html)).
Proof.
  intros Hpage. unfold main. rewrite Hpage. split.
  - intros Hall.
    rewrite <- (app_nil_r (candidates w html)).
    by rewrite Fetcher.fetch_json_app_fails.
  - intros msg.
    destruct (Fetcher.fetch_json (candidates w html)) as [reqs [data|msg']]
      eqn:Hf.
    + destruct (Extractor.extract_items _ _ data); [|done].
      by destruct (PlanBuilder.build_plan fuel _).
    + intros [= ->]. split.
      * apply (fetch_json_msg (candidates w html)). by rewrite Hf.
      * apply (Fetcher.fetch_json_raises _ msg). by rewrite Hf.
Qed.

Lemma main_fetch_error_witness :
  (Forall (λ c, Fetcher.fails c.2) (candidates offline_world "<html></html>") →
   main 0 offline_world = Some (FetchError Fetcher.no_source_msg)) ∧
  (∀ msg, main 0 offline_world = Some (FetchError msg) →
     msg = Fetcher.no_source_msg ∧
     Forall (λ c, Fetcher.fails c.2) (candidates offline_world "<html></html>")).
Proof.
  apply (main_fetch_error 0 offline_world "<html></html>"). reflexivity.
Defined.

(** X17. When the fetched data is a dict whose day records are dicts none
    of which has today's date, the run writes the report of the plan made
    of the catalog alone: Deli sandwich, Pasta with sauce and Chicken
    tenders for Breakfast; Pizza, Salad bar, French fries and Grilled
    chicken for Dinner. *)
Theorem main_catalog_report (fuel : nat) (w : world) html data ds :
  page w = Some html →
  (Fetcher.fetch_json (candidates w html)).2 = Fetcher.Returned data →
  Extractor.is_dict data →
  Extractor.iter (Extractor.week_days data) = Extractor.Ok ds →
  Forall Extractor.is_dict ds →
  Forall (λ d, Extractor.is_today (today_str (now w)) d = false) ds →
  main (7 + fuel) w
  = Some (Written ("mealplan_" +:+ today_iso (now w) +:+ ".md")
            (Formatter.format_plan (today_iso (now w)) catalog_plan)).
Proof.
  intros Hpage Hf [members ->] Hds Hdict Hdate. unfold main. rewrite Hpage.
  destruct (Fetcher.fetch_json (candidates w html)) as [reqs out].
  simpl in Hf. subst out.
  rewrite Extractor.extract_items_dict, Hds, ExtractorFacts.bind_ret.
  rewrite Extractor.days_loop_no_match by done.
  destruct (PlanFacts.build_plan_run_bounds [])
    as (pb & pd & rest & _ & _ & _ & _ & _ & Hrun).
  rewrite Hrun. specialize (Hrun 0%nat).
  change (7 + 0)%nat with 7%nat in Hrun.
  assert (PlanBuilder.build_plan 7 [] = Some catalog_plan) as Hcat
    by by vm_compute.
  rewrite Hcat in Hrun. by injection Hrun as <- <-.
Qed.

Lemma main_catalog_report_witness :
  main 7 sample_world
  = Some (Written "mealplan_2024-05-03.md"
            (Formatter.format_plan "2024-05-03" catalog_plan)).
Proof.
  apply (main_catalog_report 0 sample_world sample_page
           (Extractor.week_of Extractor.sample_days) Extractor.sample_days).
  - reflexivity.
  - by vm_compute.
  - by eexists.
  - reflexivity.
  - repeat constructor; by eexists.
  - repeat constructor.
Defined.

End Pipeline.
